(** * Vinx Spiral: the spiral-portrait renderer of [src/App.js]

    A shallow embedding of [renderSpiral] and of the helpers it closes over
    ([clamp], [lerp], [sample]), followed by the properties of the sampler,
    of the spiral walk and of what a render leaves on the canvas.

    Conventions of the embedding.
    - A JavaScript Number is a real number of [R]: arithmetic is exact, so
      rounding, NaN and the infinities of binary64 are outside the model.
      The one place where the code can meet a non-number, a read past the
      end of the pixel buffer ([undefined], which arithmetic turns into
      NaN), is modelled by [option R] with [None] for NaN. A quotient is
      meaningful only for a non-zero divisor: the divisors of the code are
      [lineSpacing] and the width and height of the image.
    - Where a property speaks of an exact value, the operation is also
      evaluated in binary64 with the primitive floats ([lerp64]).
    - Integer-valued numbers that the code uses as indices ([Math.floor]
      results, [size]) are kept in [Z].
    - [Math.cos], [Math.sin] and [Math.PI] are [cos], [sin] and [PI].
      [Math.pow] and the image resampling of [drawImage] are left to the
      platform: they are the fields of a [Platform] record.
    - The 2D canvas context is a record of its drawing state, its current
      path and the list of paint operations issued since the last reset;
      a canvas call that throws ends the render with [Throw].
    - The [while] loop runs on a budget of passes; [renderSpiral] gives it
      the number of passes it needs, and is shown never to exhaust it. *)

From Stdlib Require Import Reals Lra Lia ZArith Bool String List Floats.
Import ListNotations.
Open Scope R_scope.
Set Warnings "-inexact-float".

(* ================================================================== *)
(** * Part I. The embedding                                             *)
(* ================================================================== *)

(** ** Numbers and the two utility helpers (App.js lines 6-7) *)

Definition Math_max (a b : R) : R := Rmax a b.
Definition Math_min (a b : R) : R := Rmin a b.
Definition Math_floor (v : R) : Z := Zfloor v.

(** [const clamp = (v, min, max) => Math.max(min, Math.min(max, v));] *)
Definition clamp (v min max : R) : R := Math_max min (Math_min max v).

(** [const lerp = (a, b, t) => a + (b - a) * t;] *)
Definition lerp (a b t : R) : R := a + (b - a) * t.

(** [lerp] in the arithmetic of the code: binary64, every operation rounded
    to nearest. It is used where a property speaks of an exact value. *)
Definition lerp64 (a b t : float) : float := (a + (b - a) * t)%float.

(** ** Pixels, images and the platform *)

Record RGBA := mkRGBA { red : Z; green : Z; blue : Z; alpha : Z }.

(** What [clearRect] and a freshly sized canvas hold. *)
Definition transparent : RGBA := mkRGBA 0 0 0 0.

(** The backing store of a canvas: the pixel at column [px], row [py]. *)
Definition Bitmap := Z -> Z -> RGBA.

(** A decoded [Image]: its intrinsic size and its pixels. *)
Record Image := mkImage { width : Z; height : Z; pixels : Bitmap }.

(** The part of the runtime that the ECMAScript and HTML standards leave to
    the implementation: the approximation computed by [Math.pow], and the
    colour [drawImage] gives to a pixel that the destination rectangle
    [(dx, dy, dw, dh)] touches, from the image and the pixel underneath. *)
Record Platform := mkPlatform {
  Math_pow : R -> R -> R;
  resample : Image -> R -> R -> R -> R -> Z -> Z -> RGBA -> RGBA
}.

(** The React state read by a render (App.js lines 17-24). *)
Record Params := mkParams {
  turns : R;
  lineSpacing : R;
  minWidth : R;
  maxWidth : R;
  gamma : R;
  invert : bool;
  cropToCircle : bool;
  resolution : Z
}.

(** ** The hidden canvas: the working buffer *)

(** [hctx.clearRect(x, y, w, h)] with integer arguments. *)
Definition clearRect (x y w h : Z) (bmp : Bitmap) : Bitmap :=
  fun px py =>
    if ((x <=? px) && (px <? x + w) && (y <=? py) && (py <? y + h))%Z
    then transparent else bmp px py.

(** Pixel [(px, py)] is the unit square [[px, px+1) x [py, py+1)]; it is
    touched by a draw into [(dx, dy, dw, dh)] when the two overlap. *)
Definition touches (dx dy dw dh : R) (px py : Z) : bool :=
  if Rlt_dec dx (IZR px + 1) then
    if Rlt_dec (IZR px) (dx + dw) then
      if Rlt_dec dy (IZR py + 1) then
        if Rlt_dec (IZR py) (dy + dh) then true else false
      else false
    else false
  else false.

(** [hctx.drawImage(img, dx, dy, dw, dh)]: pixels outside the destination
    rectangle keep their value. *)
Definition drawImage (P : Platform) (img : Image) (dx dy dw dh : R)
    (bmp : Bitmap) : Bitmap :=
  fun px py =>
    if touches dx dy dw dh px py
    then resample P img dx dy dw dh px py (bmp px py)
    else bmp px py.

(** The integers [lo, lo+1, ..., lo+n-1]. *)
Fixpoint zrange (lo : Z) (n : nat) : list Z :=
  match n with
  | O => []
  | S k => lo :: zrange (lo + 1) k
  end.

Definition rgba_bytes (c : RGBA) : list Z := [red c; green c; blue c; alpha c].

(** [hctx.getImageData(0, 0, size, size).data]: the rows of the bitmap from
    top to bottom, each from left to right, four bytes a pixel. *)
Definition getImageData (bmp : Bitmap) (size : Z) : list Z :=
  flat_map (fun py =>
    flat_map (fun px => rgba_bytes (bmp px py)) (zrange 0 (Z.to_nat size)))
    (zrange 0 (Z.to_nat size)).

(** [data[idx]]: [None] is JavaScript's [undefined]. *)
Definition data_get (data : list Z) (idx : Z) : option R :=
  if (idx <? 0)%Z then None
  else option_map IZR (nth_error data (Z.to_nat idx)).

(** ** The sampler (App.js lines 109-121) *)

(** The pixel that [sample] addresses: lines 110-111. *)
Definition sample_pixel (size : Z) (x y : R) : Z * Z :=
  let ix := Math_floor (clamp x 0 (IZR size - 1)) in
  let iy := Math_floor (clamp y 0 (IZR size - 1)) in
  (ix, iy).

(** [sample] closes over [size], [data], [invert] and [gamma]. *)
Definition sample (P : Platform) (size : Z) (data : list Z) (invert : bool)
    (gamma : R) (x y : R) : option R :=
  let ix := Math_floor (clamp x 0 (IZR size - 1)) in
  let iy := Math_floor (clamp y 0 (IZR size - 1)) in
  let idx := ((iy * size + ix) * 4)%Z in
  match data_get data (idx + 0), data_get data (idx + 1),
        data_get data (idx + 2) with
  | Some r, Some g, Some b =>
      let lum := 0.2126 * r + 0.7152 * g + 0.0722 * b in
      let lum := lum / 255 in
      let lum := if invert then 1 - lum else lum in
      let lum := clamp (Math_pow P lum gamma) 0 1 in
      Some lum
  | _, _, _ => None
  end.

(** ** Exceptions and the loop budget *)

(** The result of running code that may throw a [DOMException] (named by
    [e]) or, in the fuel-bounded model of the [while] loop, exhaust its
    budget of iterations. *)
Inductive Outcome (A : Type) : Type :=
| Ok (a : A)
| Throw (e : string)
| OutOfFuel.
Arguments Ok {A} a.
Arguments Throw {A} e.
Arguments OutOfFuel {A}.

Definition bind {A B : Type} (c : Outcome A) (k : A -> Outcome B) : Outcome B :=
  match c with
  | Ok a => k a
  | Throw e => Throw e
  | OutOfFuel => OutOfFuel
  end.

Notation "x <- c ;; k" := (bind c (fun x => k))
  (at level 61, c at next level, right associativity).
Notation "c |> f" := (f c) (at level 50, left associativity, only parsing).

(** ** The 2D context of the visible canvas *)

Inductive PathCmd : Type :=
| MoveTo (x y : R)
| LineTo (x y : R)
| Arc (x y radius startAngle endAngle : R).

(** The drawing state that [save] pushes and [restore] pops. [origin] is the
    translation of the current transform; [clips] are the paths whose
    intersection is the clipping region. *)
Record DrawState := mkDrawState {
  lineWidth : R;
  lineCap : string;
  lineJoin : string;
  strokeStyle : string;
  fillStyle : string;
  origin : R * R;
  clips : list (list PathCmd)
}.

Inductive PaintOp : Type :=
| FillRect (style : string) (x y w h : R) (clip : list (list PathCmd))
| Stroke (p : list PathCmd) (ds : DrawState).

Record Ctx := mkCtx {
  state : DrawState;
  saved : list DrawState;
  path : list PathCmd;
  painted : list PaintOp
}.

(** The state of a context after its canvas has been (re)sized. *)
Definition default_state : DrawState :=
  mkDrawState 1 "butt" "miter" "#000000" "#000000" (0, 0) [].

Definition default_ctx : Ctx := mkCtx default_state [] [] [].

Definition with_state (f : DrawState -> DrawState) (c : Ctx) : Ctx :=
  mkCtx (f (state c)) (saved c) (path c) (painted c).

Definition save (c : Ctx) : Ctx :=
  mkCtx (state c) (state c :: saved c) (path c) (painted c).

Definition restore (c : Ctx) : Ctx :=
  match saved c with
  | [] => c
  | s :: rest => mkCtx s rest (path c) (painted c)
  end.

Definition set_fillStyle (v : string) : Ctx -> Ctx :=
  with_state (fun s => mkDrawState (lineWidth s) (lineCap s) (lineJoin s)
                         (strokeStyle s) v (origin s) (clips s)).

Definition set_strokeStyle (v : string) : Ctx -> Ctx :=
  with_state (fun s => mkDrawState (lineWidth s) (lineCap s) (lineJoin s)
                         v (fillStyle s) (origin s) (clips s)).

Definition set_lineCap (v : string) : Ctx -> Ctx :=
  with_state (fun s => mkDrawState (lineWidth s) v (lineJoin s)
                         (strokeStyle s) (fillStyle s) (origin s) (clips s)).

Definition set_lineJoin (v : string) : Ctx -> Ctx :=
  with_state (fun s => mkDrawState (lineWidth s) (lineCap s) v
                         (strokeStyle s) (fillStyle s) (origin s) (clips s)).

Definition with_lineWidth (v : R) (s : DrawState) : DrawState :=
  mkDrawState v (lineCap s) (lineJoin s) (strokeStyle s) (fillStyle s)
    (origin s) (clips s).

(** [ctx.lineWidth = w]: the setter ignores NaN, zero and negative values. *)
Definition set_lineWidth (w : option R) (c : Ctx) : Ctx :=
  match w with
  | Some v => if Rlt_dec 0 v then with_state (with_lineWidth v) c else c
  | None => c
  end.

Definition translate (tx ty : R) : Ctx -> Ctx :=
  with_state (fun s => mkDrawState (lineWidth s) (lineCap s) (lineJoin s)
                         (strokeStyle s) (fillStyle s)
                         (fst (origin s) + tx, snd (origin s) + ty) (clips s)).

Definition fillRect (x y w h : R) (c : Ctx) : Ctx :=
  let s := state c in
  mkCtx s (saved c) (path c)
    (painted c ++ [FillRect (fillStyle s) (x + fst (origin s))
                      (y + snd (origin s)) w h (clips s)]).

Definition beginPath (c : Ctx) : Ctx :=
  mkCtx (state c) (saved c) [] (painted c).

(** Points enter the path in canvas coordinates: the current transform is
    applied when they are added. *)
Definition moveTo (x y : R) (c : Ctx) : Ctx :=
  let o := origin (state c) in
  mkCtx (state c) (saved c) (path c ++ [MoveTo (x + fst o) (y + snd o)])
    (painted c).

Definition lineTo (x y : R) (c : Ctx) : Ctx :=
  let o := origin (state c) in
  mkCtx (state c) (saved c) (path c ++ [LineTo (x + fst o) (y + snd o)])
    (painted c).

(** [ctx.arc] throws an [IndexSizeError] on a negative radius. *)
Definition arc (x y radius startAngle endAngle : R) (c : Ctx) : Outcome Ctx :=
  if Rlt_dec radius 0 then Throw "IndexSizeError"
  else
    let o := origin (state c) in
    Ok (mkCtx (state c) (saved c)
          (path c ++ [Arc (x + fst o) (y + snd o) radius startAngle endAngle])
          (painted c)).

Definition clip : Ctx -> Ctx :=
  fun c => with_state (fun s => mkDrawState (lineWidth s) (lineCap s)
                         (lineJoin s) (strokeStyle s) (fillStyle s)
                         (origin s) (path c :: clips s)) c.

(** [ctx.stroke()]: the whole current path is painted once, with the line
    style the context has at this moment. *)
Definition stroke (c : Ctx) : Ctx :=
  mkCtx (state c) (saved c) (path c) (painted c ++ [Stroke (path c) (state c)]).

(** *** What a stroke paints *)

Definition Point : Type := R * R.
Definition Segment : Type := Point * Point.

(** The straight segments of a path. A [LineTo] on a path without a current
    point only sets it, as a [MoveTo] does. *)
Fixpoint segments_from (cur : option Point) (p : list PathCmd) : list Segment :=
  match p with
  | [] => []
  | MoveTo x y :: rest => segments_from (Some (x, y)) rest
  | LineTo x y :: rest =>
      match cur with
      | Some c => (c, (x, y)) :: segments_from (Some (x, y)) rest
      | None => segments_from (Some (x, y)) rest
      end
  | Arc x y r a0 a1 :: rest =>
      segments_from (Some (x + r * cos a1, y + r * sin a1)) rest
  end.

Definition segments (p : list PathCmd) : list Segment := segments_from None p.

(** The segments a paint operation draws, each with the width it is drawn
    with. *)
Definition stroked (op : PaintOp) : list (Segment * R) :=
  match op with
  | FillRect _ _ _ _ _ _ => []
  | Stroke p ds => map (fun s => (s, lineWidth ds)) (segments p)
  end.

Definition rendered_segments (c : Ctx) : list (Segment * R) :=
  flat_map stroked (painted c).

(** ** The two canvases of the page *)

Record Canvas := mkCanvas { cwidth : Z; cheight : Z; context : Ctx }.
Record HiddenCanvas := mkHidden { hwidth : Z; hheight : Z; bitmap : Bitmap }.
Record Page := mkPage { canvas : Canvas; hcan : HiddenCanvas }.

(** Assigning [width] or [height] resets the context and clears the bitmap,
    also when the value does not change. *)
Definition set_width (n : Z) (c : Canvas) : Canvas :=
  mkCanvas n (cheight c) default_ctx.
Definition set_height (n : Z) (c : Canvas) : Canvas :=
  mkCanvas (cwidth c) n default_ctx.
Definition set_hwidth (n : Z) (h : HiddenCanvas) : HiddenCanvas :=
  mkHidden n (hheight h) (fun _ _ => transparent).
Definition set_hheight (n : Z) (h : HiddenCanvas) : HiddenCanvas :=
  mkHidden (hwidth h) n (fun _ _ => transparent).

(** [getImageData(0, 0, size, size)] throws on an empty rectangle. *)
Definition getImageData_checked (bmp : Bitmap) (size : Z) : Outcome (list Z) :=
  if (size =? 0)%Z then Throw "IndexSizeError" else Ok (getImageData bmp size).

(** ** The spiral walk (App.js lines 142-176) *)

Definition dTheta : R := 0.015.

(** The variables the [while] loop assigns. [currentWidth] is [null] until
    the first pass; it and [lastX], [lastY] are written but never read. *)
Record LoopState := mkLoop {
  theta : R;
  lastX : R;
  lastY : R;
  first : bool;
  currentWidth : option R;
  ctx : Ctx
}.

(** The constants of lines 130-134, which the loop closes over. The
    quotient [maxR p / b p] is the one of the real numbers: it is the code's
    when [lineSpacing] is not 0. At [lineSpacing = 0] the code divides by
    zero and its quotient is infinite or NaN, which the real numbers do not
    have; that configuration is outside the embedding, and the statements
    about the passes of the loop for arbitrary parameters assume
    [lineSpacing <> 0]. *)
Definition cx (p : Params) : R := IZR (resolution p) / 2.
Definition cy (p : Params) : R := IZR (resolution p) / 2.
Definition b (p : Params) : R := lineSpacing p / (2 * PI).
Definition maxR (p : Params) : R := IZR (resolution p) / 2 - maxWidth p * 1.5.
Definition maxTheta (p : Params) : R :=
  Math_min (maxR p / b p) (PI * 2 * turns p).

Section Walk.
Variable P : Platform.
Variable p : Params.
(** [imgData.data], read by [sample]. *)
Variable data : list Z.

(** One pass through the body of the loop, lines 152-175. *)
Definition loop_body (st : LoopState) : LoopState :=
  let r := b p * theta st in
  let x := r * cos (theta st) in
  let y := r * sin (theta st) in
  let ix := x + cx p in
  let iy := y + cy p in
  let lum := sample P (resolution p) data (invert p) (gamma p) ix iy in
  let shade := option_map (fun l => 1 - l) lum in
  let w := option_map (lerp (minWidth p) (maxWidth p)) shade in
  if first st then
    mkLoop (theta st + dTheta) x y false w (ctx st |> moveTo x y)
  else
    mkLoop (theta st + dTheta) x y false (currentWidth st)
      (ctx st |> set_lineWidth w |> lineTo x y).

(** [while (theta < maxTheta) { ... }] with a budget of passes. *)
Fixpoint spiral_loop (fuel : nat) (st : LoopState) : Outcome LoopState :=
  if Rlt_dec (theta st) (maxTheta p) then
    match fuel with
    | O => OutOfFuel
    | S k => spiral_loop k (loop_body st)
    end
  else Ok st.
End Walk.

(** The number of passes the loop makes when [theta] starts at 0: the budget
    [renderSpiral] runs it with. *)
Definition passes (p : Params) : nat := Z.to_nat (Zceil (maxTheta p / dTheta)).

(** ** [renderSpiral] (App.js lines 75-192)

    The page is the pair of canvases that [canvasRef] and [hiddenRef] refer
    to; [img] is the React state [img], [None] before an image is loaded
    (the visible canvas is mounted exactly when there is one). The embedding
    ends where the drawing does, at the [restore] of line 180: [toBlob] and
    the React setters are not modelled. *)
Definition renderSpiral (P : Platform) (p : Params) (img : option Image)
    (pg : Page) : Outcome Page :=
  match img with
  | None => Ok pg
  | Some img =>
      let size := resolution p in
      let canvas1 := canvas pg |> set_width size |> set_height size in
      let ctx0 := context canvas1 in
      let hcan1 := hcan pg |> set_hwidth size |> set_hheight size in
      let ctx1 := ctx0 |> save |> set_fillStyle "#fff"
                       |> fillRect 0 0 (IZR size) (IZR size) |> restore in
      let scale := Math_min (IZR size / IZR (width img))
                            (IZR size / IZR (height img)) in
      let drawW := IZR (width img) * scale in
      let drawH := IZR (height img) * scale in
      let dx := (IZR size - drawW) / 2 in
      let dy := (IZR size - drawH) / 2 in
      let hbmp := bitmap hcan1 |> clearRect 0 0 size size
                              |> drawImage P img dx dy drawW drawH in
      data <- getImageData_checked hbmp size ;;
      ctx2 <- (if cropToCircle p then
                 c <- (ctx1 |> save |> beginPath
                            |> arc (IZR size / 2) (IZR size / 2)
                                   (IZR size / 2 - maxWidth p) 0 (PI * 2)) ;;
                 Ok (clip c)
               else Ok ctx1) ;;
      let ctx3 := ctx2 |> save |> translate (cx p) (cy p) |> set_lineCap "round"
                       |> set_lineJoin "round" |> set_strokeStyle "#000" in
      let st0 := mkLoop 0 0 0 true None (beginPath ctx3) in
      st <- spiral_loop P p data (passes p) st0 ;;
      let ctx4 := ctx st |> stroke |> restore in
      let ctx5 := if cropToCircle p then restore ctx4 else ctx4 in
      Ok (mkPage (mkCanvas size size ctx5) (mkHidden size size hbmp))
  end.

(** ** The sampler as the specification words it

    The pipeline of section 4.1: read the pixel, normalize its weighted RGB
    sum, invert, apply gamma, clamp. [sample_pipeline] composes the steps in
    that order; it is compared with [sample] below. *)

(** The three colour bytes of pixel [(ix, iy)] in a row-major RGBA buffer. *)
Definition pixel_rgb (size : Z) (data : list Z) (pix : Z * Z) : option (R * R * R) :=
  let idx := ((snd pix * size + fst pix) * 4)%Z in
  match data_get data (idx + 0), data_get data (idx + 1),
        data_get data (idx + 2) with
  | Some r, Some g, Some b => Some (r, g, b)
  | _, _, _ => None
  end.

(** The raw brightness of a pixel: the weighted RGB sum. *)
Definition brightness (rgb : R * R * R) : R :=
  let '(r, g, b) := rgb in 0.2126 * r + 0.7152 * g + 0.0722 * b.

Definition normalize (rgb : R * R * R) : R := brightness rgb / 255.
Definition invert_step (inv : bool) (lum : R) : R := if inv then 1 - lum else lum.
Definition gamma_step (P : Platform) (g : R) (lum : R) : R := Math_pow P lum g.
Definition clamp_step (lum : R) : R := clamp lum 0 1.

Definition sample_pipeline (P : Platform) (size : Z) (data : list Z)
    (inv : bool) (g : R) (x y : R) : option R :=
  option_map
    (fun rgb => clamp_step (gamma_step P g (invert_step inv (normalize rgb))))
    (pixel_rgb size data (sample_pixel size x y)).

(** The index arithmetic the specification describes: floor, then clamp. *)
Definition floor_then_clamp (size : Z) (v : R) : Z :=
  Z.max 0 (Z.min (size - 1) (Zfloor v)).

(** Every element of a [Uint8ClampedArray] is a byte. *)
Definition bytes (data : list Z) : Prop :=
  Forall (fun v => (0 <= v <= 255)%Z) data.

(** Two buffers that differ at most in their alpha bytes. *)
Definition same_rgb (data1 data2 : list Z) : Prop :=
  forall i : nat, (i mod 4 <> 3)%nat -> nth_error data1 i = nth_error data2 i.

(** ** The spiral path as the specification words it

    Sample [i] is taken at [theta = i * dTheta]; its point is on the spiral
    [r = b * theta] around the centre of the canvas and its width is the
    [lerp] of the shade sampled there. *)

Definition sample_theta (i : nat) : R := INR i * dTheta.

(** The point of sample [i], relative to the centre. *)
Definition sample_point (p : Params) (i : nat) : Point :=
  (b p * sample_theta i * cos (sample_theta i),
   b p * sample_theta i * sin (sample_theta i)).

(** The same point in canvas coordinates. *)
Definition canvas_point (p : Params) (i : nat) : Point :=
  (fst (sample_point p i) + cx p, snd (sample_point p i) + cy p).

(** The width computed for sample [i]; [None] when the sample is NaN. *)
Definition sample_width (P : Platform) (p : Params) (data : list Z) (i : nat)
    : option R :=
  option_map (fun lum => lerp (minWidth p) (maxWidth p) (1 - lum))
    (sample P (resolution p) data (invert p) (gamma p)
       (fst (canvas_point p i)) (snd (canvas_point p i))).

(** A path through the first [n] samples: a [MoveTo] to sample 0, then a
    [LineTo] to each later sample. *)
Definition spiral_path (p : Params) (n : nat) : list PathCmd :=
  match n with
  | O => []
  | S m =>
      MoveTo (fst (canvas_point p 0)) (snd (canvas_point p 0))
      :: map (fun i => LineTo (fst (canvas_point p i)) (snd (canvas_point p i)))
           (seq 1 m)
  end.

(** The segment that sample [i] appends: from sample [i-1] to sample [i]. *)
Definition spiral_segment (p : Params) (i : nat) : Segment :=
  (canvas_point p (i - 1), canvas_point p i).

(** What the setter of [lineWidth] leaves in the context. *)
Definition accept_lineWidth (w : option R) (current : R) : R :=
  match w with
  | Some v => if Rlt_dec 0 v then v else current
  | None => current
  end.

(** The value of [ctx.lineWidth] after the passes for samples [0 .. n-1],
    from the default width 1: the pass of sample 0 does not assign it, the
    pass of each later sample does. *)
Fixpoint lineWidth_after (P : Platform) (p : Params) (data : list Z) (n : nat)
    : R :=
  match n with
  | O => 1
  | S k =>
      match k with
      | O => lineWidth_after P p data k
      | S _ => accept_lineWidth (sample_width P p data k)
                 (lineWidth_after P p data k)
      end
  end.

(** [n] passes through the body of the loop. *)
Fixpoint walk (P : Platform) (p : Params) (data : list Z) (n : nat)
    (st : LoopState) : LoopState :=
  match n with
  | O => st
  | S k => walk P p data k (loop_body P p data st)
  end.

(** The working buffer that lines 97-106 hand to [sample]: the image drawn,
    scaled to fit and centred, on the cleared hidden canvas. *)
Definition scale (img : Image) (size : Z) : R :=
  Math_min (IZR size / IZR (width img)) (IZR size / IZR (height img)).
Definition drawW (img : Image) (size : Z) : R := IZR (width img) * scale img size.
Definition drawH (img : Image) (size : Z) : R := IZR (height img) * scale img size.
Definition dx (img : Image) (size : Z) : R := (IZR size - drawW img size) / 2.
Definition dy (img : Image) (size : Z) : R := (IZR size - drawH img size) / 2.

Definition prepare (P : Platform) (img : Image) (size : Z) : Bitmap :=
  (fun _ _ => transparent)
    |> clearRect 0 0 size size
    |> drawImage P img (dx img size) (dy img size) (drawW img size) (drawH img size).

(** A pixel of the canvas that the drawn image leaves untouched. *)
Definition letterbox (img : Image) (size : Z) (px py : Z) : Prop :=
  (0 <= px <= size - 1)%Z /\ (0 <= py <= size - 1)%Z /\
  touches (dx img size) (dy img size) (drawW img size) (drawH img size) px py
  = false.

(** The luminance of pixel [(px, py)] of the working buffer, before the
    inversion. *)
Definition luminance_at (P : Platform) (img : Image) (size : Z) (px py : Z)
    : option R :=
  option_map normalize
    (pixel_rgb size (getImageData (prepare P img size) size) (px, py)).

(** ** What a render leaves on the page

    The paint operations of a successful render, named for the statements
    below: the white background, then one stroke of the spiral path, under
    the circular clip when [cropToCircle] is set. *)

Definition background (p : Params) : PaintOp :=
  FillRect "#fff" 0 0 (IZR (resolution p)) (IZR (resolution p)) [].

Definition clip_region (p : Params) : list (list PathCmd) :=
  if cropToCircle p
  then [[Arc (IZR (resolution p) / 2) (IZR (resolution p) / 2)
           (IZR (resolution p) / 2 - maxWidth p) 0 (PI * 2)]]
  else [].

(** The drawing state at the moment of [ctx.stroke()]. *)
Definition stroke_state (P : Platform) (p : Params) (data : list Z) : DrawState :=
  mkDrawState (lineWidth_after P p data (passes p)) "round" "round" "#000"
    "#000000" (cx p, cy p) (clip_region p).

Definition rendered_ctx (P : Platform) (p : Params) (data : list Z) : Ctx :=
  mkCtx default_state [] (spiral_path p (passes p))
    [background p; Stroke (spiral_path p (passes p)) (stroke_state P p data)].

Definition rendered_page (P : Platform) (p : Params) (img : Image) : Page :=
  let size := resolution p in
  mkPage
    (mkCanvas size size
       (rendered_ctx P p (getImageData (prepare P img size) size)))
    (mkHidden size size (prepare P img size)).

(** The configurations on which no canvas call throws: a positive
    resolution, and a non-negative radius for the clipping circle. *)
Definition drawable (p : Params) : Prop :=
  (1 <= resolution p)%Z /\
  (cropToCircle p = true -> maxWidth p <= IZR (resolution p) / 2).

(** ** A reference platform

    The real power function on a non-negative base (with [0^0 = 1] and
    [0^y = 0]) and nearest-neighbour resampling of an opaque image: one
    platform among those the properties below quantify over, used to run
    them on concrete inputs. *)

Definition real_pow (x y : R) : R :=
  if Rlt_dec 0 x then Rpower x y
  else if Req_dec_T y 0 then 1 else 0.

Definition nearest_neighbour (img : Image) (dx dy dw dh : R) (px py : Z)
    (under : RGBA) : RGBA :=
  pixels img (Zfloor ((IZR px + 0.5 - dx) * IZR (width img) / dw))
             (Zfloor ((IZR py + 0.5 - dy) * IZR (height img) / dh)).

Definition reference_platform : Platform := mkPlatform real_pow nearest_neighbour.

(** ** Concrete inputs *)

(** The parameters the page starts with (App.js lines 17-24). *)
Definition default_params : Params := mkParams 140 3 0.6 4.2 1.15 false true 2048.

(** The same with [turns = 0]. *)
Definition no_turns : Params := mkParams 0 3 0.6 4.2 1.15 false true 2048.

Definition white : RGBA := mkRGBA 255 255 255 255.
Definition black : RGBA := mkRGBA 0 0 0 255.

(** A one-pixel black image and a white image twice as wide as high. *)
Definition black_image : Image := mkImage 1 1 (fun _ _ => black).
Definition wide_image : Image := mkImage 4 2 (fun _ _ => white).

(** A page as the browser creates it: two canvases of the default size. *)
Definition fresh_page : Page :=
  mkPage (mkCanvas 300 150 default_ctx)
         (mkHidden 300 150 (fun _ _ => transparent)).

(** The claim of the specification about the widest stroke: at shade 1 the
    width is [maxWidth] exactly. *)
Definition reaches_maxWidth (minWidth maxWidth : float) : Prop :=
  lerp64 minWidth maxWidth 1 = maxWidth.

(** The claim of the specification about the letterbox: every pixel the
    image leaves untouched samples as white. *)
Definition letterbox_is_white (P : Platform) (img : Image) (size : Z) : Prop :=
  forall px py, letterbox img size px py -> luminance_at P img size px py = Some 1.

(** The claim of the specification about [turns = 0]: the path of the render
    is its starting point alone. *)
Definition path_is_start_point (P : Platform) (p : Params) (img : Image)
    (pg : Page) : Prop :=
  exists pg' x y,
    renderSpiral P p (Some img) pg = Ok pg' /\
    path (context (canvas pg')) = [MoveTo x y].

(** A black image of the size of the default canvas with one white pixel,
    the one at the centre: the first samples of the spiral fall on it, the
    last ones do not. *)
Definition dot_image : Image :=
  mkImage 2048 2048
    (fun px py => if ((px =? 1024) && (py =? 1024))%Z then white else black).

Definition dot_data : list Z :=
  getImageData (prepare reference_platform dot_image 2048) 2048.


(* ================================================================== *)
(** * Part I, continued. The rest of the component                      *)
(* ================================================================== *)

(** ** The curve the loop walks (App.js lines 152-154)

    [r = b * theta], [x = r * cos theta], [y = r * sin theta]: the point the
    body of the loop computes from [theta], relative to the centre. *)
Definition spiral_xy (p : Params) (t : R) : Point :=
  let r := b p * t in
  (r * cos t, r * sin t).

(** The square of the distance between two points. *)
Definition dist2 (u v : Point) : R := (fst u - fst v)² + (snd u - snd v)².

(** The radius of the clipping circle of line 126. *)
Definition clip_radius (p : Params) : R := IZR (resolution p) / 2 - maxWidth p.

(** ** The React state and the handlers that change it *)

Module App.

(** A [File] as the handlers see it: its MIME type, and what an [Image]
    whose [src] is an object URL of the file does, [onload] with the decoded
    image ([Some]) or [onerror] ([None]). *)
Record File := mkFile { type : string; decoded : option Image }.

(** An item of [clipboardData.items]. *)
Record Item := mkItem { it_type : string; getAsFile : option File }.

(** The state of lines 10-24; the eight controls are the fields of
    [params]. *)
Record State := mkState {
  img : option Image;
  imgURL : string;
  busy : bool;
  downloadURL : string;
  error : string;
  params : Params
}.

Definition setImg (v : option Image) (st : State) : State :=
  mkState v (imgURL st) (busy st) (downloadURL st) (error st) (params st).
Definition setImgURL (v : string) (st : State) : State :=
  mkState (img st) v (busy st) (downloadURL st) (error st) (params st).
Definition setBusy (v : bool) (st : State) : State :=
  mkState (img st) (imgURL st) v (downloadURL st) (error st) (params st).
Definition setDownloadURL (v : string) (st : State) : State :=
  mkState (img st) (imgURL st) (busy st) v (error st) (params st).
Definition setError (v : string) (st : State) : State :=
  mkState (img st) (imgURL st) (busy st) (downloadURL st) v (params st).
Definition setParams (v : Params) (st : State) : State :=
  mkState (img st) (imgURL st) (busy st) (downloadURL st) (error st) v.

Section Handlers.
(** The browser: the encoded canvas, and the object URLs it hands out. *)
Variable Blob : Type.
Variable createObjectURL : File + Blob -> string.
Variable toBlob : Canvas -> option Blob.

(** [file.type.startsWith("image/")] *)
Definition is_image (t : string) : bool := String.prefix "image/" t.

(** [onFile] (lines 31-49) up to [im.src = url]: the new state, and the load
    it has started, if any, as the URL and the file behind it. *)
Definition onFile (file : option File) (st : State)
    : State * option (string * File) :=
  let st := setError "" st in
  match file with
  | None => (st, None)
  | Some f =>
      if negb (is_image (type f)) then
        (setError "Please choose an image file." st, None)
      else
        let url := createObjectURL (inl f) in
        (st, Some (url, f))
  end.

(** [im.onload] (lines 40-44); revoking the URL does not touch the state. *)
Definition im_onload (url : string) (im : Image) (st : State) : State :=
  st |> setImg (Some im) |> setImgURL url.

(** [im.onerror] (lines 45-47). *)
Definition im_onerror (st : State) : State :=
  setError "Couldn't load that image. Try another file." st.

(** The load started by [onFile] comes to its end. *)
Definition settle (pending : option (string * File)) (st : State) : State :=
  match pending with
  | None => st
  | Some (url, f) =>
      match decoded f with
      | Some im => im_onload url im st
      | None => im_onerror st
      end
  end.

(** [handleDrop] (lines 51-57), on [e.dataTransfer.files]. *)
Definition handleDrop (files : option (list File)) (st : State)
    : State * option (string * File) :=
  match files with
  | Some (f :: _) => onFile (Some f) st
  | _ => (st, None)
  end.

(** The [for ... of] loop of [handlePaste], lines 62-67. *)
Fixpoint paste_loop (items : list Item) (st : State)
    : State * option (string * File) :=
  match items with
  | [] => (st, None)
  | it :: rest =>
      if is_image (it_type it) then onFile (getAsFile it) st
      else paste_loop rest st
  end.

(** [handlePaste] (lines 59-68), on [e.clipboardData?.items]. *)
Definition handlePaste (items : option (list Item)) (st : State)
    : State * option (string * File) :=
  match items with
  | None => (st, None)
  | Some l => paste_loop l st
  end.

(** [reset] (lines 198-207). *)
Definition reset (st : State) : State :=
  setParams (mkParams 140 3 0.6 4.2 1.15 false true 2048) st.

(** [renderSpiral] with its effects on the state, up to the call of
    [canvas.toBlob]: lines 76-79 around the drawing embedded above. An
    exception leaves the function before line 182. *)
Definition renderSpiral (P : Platform) (st : State) (pg : Page)
    : State * Outcome Page :=
  match img st with
  | None => (st, Ok pg)
  | Some im =>
      let st1 := st |> setBusy true |> setError "" |> setDownloadURL "" in
      (st1, renderSpiral P (params st) (Some im) pg)
  end.

(** The callback of [canvas.toBlob], lines 182-191. *)
Definition toBlob_callback (blob : option Blob) (st : State) : State :=
  match blob with
  | None => st |> setBusy false |> setError "Failed to generate image blob."
  | Some bl => st |> setDownloadURL (createObjectURL (inr bl)) |> setBusy false
  end.

(** A render followed, when it returns, by the callback of [toBlob]. *)
Definition render_and_encode (P : Platform) (st : State) (pg : Page)
    : State * Outcome Page :=
  let (st1, r) := renderSpiral P st pg in
  match r with
  | Ok pg' =>
      match img st with
      | None => (st1, r)
      | Some _ => (toBlob_callback (toBlob (canvas pg')) st1, r)
      end
  | _ => (st1, r)
  end.
End Handlers.

End App.

(** ** Concrete inputs for the handlers *)

(** A stroke wider than half the canvas, with the clip on. *)
Definition wide_stroke : Params := mkParams 140 3 0.6 2000 1.15 false true 2048.

(** A browser whose blobs carry nothing, and whose canvas always encodes. *)
Definition object_url (x : App.File + unit) : string :=
  match x with
  | inl _ => "blob:file"
  | inr _ => "blob:png"
  end.

Definition encode (c : Canvas) : option unit := Some tt.

(** The state once the black image is loaded, with the controls at [p]. *)
Definition loaded (p : Params) : App.State :=
  App.mkState (Some black_image) "blob:file" false "" "" p.
(* ================================================================== *)
(** * Part II. Properties                                               *)
(* ================================================================== *)

(** ** Arithmetic of [clamp] and [lerp] *)

Lemma clamp_bounds (v lo hi : R) : lo <= hi -> lo <= clamp v lo hi <= hi.
Proof.
  intros Hle. unfold clamp, Math_max, Math_min.
  split; [apply Rmax_l|].
  apply Rmax_lub; [exact Hle | apply Rmin_l].
Qed.

Lemma clamp_inside (v lo hi : R) : lo <= v <= hi -> clamp v lo hi = v.
Proof.
  intros [Hlo Hhi]. unfold clamp, Math_max, Math_min.
  rewrite (Rmin_right hi v Hhi). now apply Rmax_right.
Qed.

Lemma clamp_below (v lo hi : R) : lo <= hi -> v <= lo -> clamp v lo hi = lo.
Proof.
  intros Hle Hv. unfold clamp, Math_max, Math_min.
  rewrite (Rmin_right hi v) by lra. now apply Rmax_left.
Qed.

Lemma clamp_above (v lo hi : R) : lo <= hi -> hi <= v -> clamp v lo hi = hi.
Proof.
  intros Hle Hv. unfold clamp, Math_max, Math_min.
  rewrite (Rmin_left hi v Hv). now apply Rmax_right.
Qed.

Lemma clamp_monotone (v1 v2 lo hi : R) :
  v1 <= v2 -> clamp v1 lo hi <= clamp v2 lo hi.
Proof.
  intros Hv. unfold clamp, Math_max, Math_min.
  apply Rle_max_compat_l, Rle_min_compat_l, Hv.
Qed.

(** Clamping to integer bounds and flooring commute: the code clamps first,
    the specification floors first. *)
Lemma floor_clamp_commute (size : Z) (v : R) :
  (1 <= size)%Z ->
  Math_floor (clamp v 0 (IZR size - 1)) = floor_then_clamp size v.
Proof.
  intros Hsize. unfold Math_floor, floor_then_clamp.
  assert (Hb : 0 <= IZR size - 1) by (apply IZR_le in Hsize; lra).
  destruct (Rle_dec v 0) as [Hv0 | Hv0].
  - rewrite clamp_below by lra. change 0 with (IZR 0). rewrite ZfloorZ.
    assert (Zfloor v <= 0)%Z.
    { rewrite <- (ZfloorZ 0). apply Zfloor_le. exact Hv0. }
    lia.
  - destruct (Rle_dec (IZR size - 1) v) as [Hv1 | Hv1].
    + rewrite clamp_above by lra.
      rewrite <- minus_IZR, ZfloorZ.
      assert (size - 1 <= Zfloor v)%Z.
      { apply Zfloor_lub. rewrite minus_IZR. exact Hv1. }
      lia.
    + rewrite clamp_inside by lra.
      assert (0 <= Zfloor v)%Z by (apply Zfloor_lub; simpl; lra).
      assert (Zfloor v <= size - 1)%Z.
      { rewrite <- (ZfloorZ (size - 1)). apply Zfloor_le.
        rewrite minus_IZR. lra. }
      lia.
Qed.

(** ** Indexing the pixel buffer *)

Lemma zrange_length (lo : Z) (n : nat) : length (zrange lo n) = n.
Proof. revert lo. induction n as [|n IH]; intros lo; simpl; [|rewrite IH]; reflexivity. Qed.

Lemma zrange_nth (n : nat) : forall (lo : Z) (i : nat),
  (i < n)%nat -> nth_error (zrange lo n) i = Some (lo + Z.of_nat i)%Z.
Proof.
  induction n as [|n IH]; intros lo i Hi; [lia|].
  destruct i as [|i]; simpl.
  - f_equal. lia.
  - rewrite IH by lia. f_equal. lia.
Qed.

(** A [flat_map] whose blocks all have [k] elements is indexed block by
    block. *)
Lemma flat_map_length_const {A B : Type} (f : A -> list B) (k : nat) (l : list A) :
  (forall a, length (f a) = k) -> length (flat_map f l) = (length l * k)%nat.
Proof.
  intros Hk. induction l as [|a l IH]; simpl; [reflexivity|].
  rewrite length_app, Hk, IH. reflexivity.
Qed.

Lemma flat_map_nth_block {A B : Type} (f : A -> list B) (k : nat) (l : list A) :
  (forall a, length (f a) = k) ->
  forall (i j : nat) (a : A),
    nth_error l i = Some a -> (j < k)%nat ->
    nth_error (flat_map f l) (i * k + j) = nth_error (f a) j.
Proof.
  intros Hk. induction l as [|a0 l IH]; intros i j a Hi Hj.
  - destruct i; discriminate.
  - destruct i as [|i]; simpl in *.
    + injection Hi as ->. apply nth_error_app1. rewrite Hk. exact Hj.
    + rewrite nth_error_app2 by (rewrite Hk; lia).
      rewrite Hk. replace (k + i * k + j - k)%nat with (i * k + j)%nat by lia.
      now apply IH.
Qed.

Lemma getImageData_length (bmp : Bitmap) (size : Z) :
  (0 <= size)%Z ->
  length (getImageData bmp size) = Z.to_nat (size * size * 4).
Proof.
  intros Hsize. unfold getImageData.
  rewrite (flat_map_length_const _ (Z.to_nat size * 4)%nat).
  - rewrite zrange_length.
    rewrite !Z2Nat.inj_mul by nia. change (Z.to_nat 4) with 4%nat. lia.
  - intros py. rewrite (flat_map_length_const _ 4%nat) by reflexivity.
    now rewrite zrange_length.
Qed.

(** Byte [c] of pixel [(px, py)] sits at index [(py * size + px) * 4 + c]. *)
Lemma getImageData_nth (bmp : Bitmap) (size px py : Z) (c : nat) :
  (0 <= px < size)%Z -> (0 <= py < size)%Z -> (c < 4)%nat ->
  nth_error (getImageData bmp size) (Z.to_nat ((py * size + px) * 4 + Z.of_nat c))
  = nth_error (rgba_bytes (bmp px py)) c.
Proof.
  intros Hpx Hpy Hc. unfold getImageData.
  replace (Z.to_nat ((py * size + px) * 4 + Z.of_nat c))
    with (Z.to_nat py * (Z.to_nat size * 4) + (Z.to_nat px * 4 + c))%nat.
  2:{ apply Nat2Z.inj. rewrite Z2Nat.id by nia.
      repeat (rewrite Nat2Z.inj_add || rewrite Nat2Z.inj_mul).
      rewrite !Z2Nat.id by lia. simpl. ring. }
  assert (Hrow : forall a : Z,
    length (flat_map (fun px0 : Z => rgba_bytes (bmp px0 a))
              (zrange 0 (Z.to_nat size))) = (Z.to_nat size * 4)%nat).
  { intros a. rewrite (flat_map_length_const _ 4%nat) by reflexivity.
    now rewrite zrange_length. }
  rewrite (flat_map_nth_block _ (Z.to_nat size * 4)%nat _ Hrow _ _ py).
  - rewrite (flat_map_nth_block (fun px0 : Z => rgba_bytes (bmp px0 py)) 4%nat _
               (fun _ => eq_refl) _ _ px).
    + reflexivity.
    + rewrite zrange_nth by lia. f_equal. lia.
    + exact Hc.
  - rewrite zrange_nth by lia. f_equal. lia.
  - nia.
Qed.

Lemma data_get_in_range (data : list Z) (idx : Z) :
  (0 <= idx)%Z -> (Z.to_nat idx < length data)%nat ->
  exists v, nth_error data (Z.to_nat idx) = Some v /\ data_get data idx = Some (IZR v).
Proof.
  intros H0 Hlt. unfold data_get.
  destruct (idx <? 0)%Z eqn:E; [apply Z.ltb_lt in E; lia|].
  destruct (nth_error data (Z.to_nat idx)) as [v|] eqn:Hn.
  - exists v. split; reflexivity.
  - apply nth_error_None in Hn. lia.
Qed.

Lemma data_get_byte (data : list Z) (idx : Z) (v : R) :
  bytes data -> data_get data idx = Some v -> 0 <= v <= 255.
Proof.
  intros Hb. unfold data_get.
  destruct (idx <? 0)%Z; [discriminate|].
  destruct (nth_error data (Z.to_nat idx)) as [z|] eqn:Hn; [|discriminate].
  simpl. intros [= <-].
  apply nth_error_In in Hn. unfold bytes in Hb. rewrite Forall_forall in Hb.
  destruct (Hb z Hn) as [H0 H255].
  split; [now apply (IZR_le 0) | now apply (IZR_le z 255)].
Qed.

(** The pixel [sample] addresses lies on the canvas. *)
Lemma sample_pixel_in_range (size : Z) (x y : R) :
  (1 <= size)%Z ->
  (0 <= fst (sample_pixel size x y) <= size - 1)%Z /\
  (0 <= snd (sample_pixel size x y) <= size - 1)%Z.
Proof.
  intros Hsize. unfold sample_pixel; simpl.
  rewrite !floor_clamp_commute by exact Hsize.
  unfold floor_then_clamp. lia.
Qed.

(** In a buffer of [size * size] pixels every pixel on the canvas has its
    three colour bytes. *)
Lemma pixel_rgb_defined (size : Z) (data : list Z) (pix : Z * Z) :
  length data = Z.to_nat (size * size * 4) ->
  (0 <= fst pix <= size - 1)%Z -> (0 <= snd pix <= size - 1)%Z ->
  exists rgb, pixel_rgb size data pix = Some rgb.
Proof.
  intros Hlen Hx Hy. unfold pixel_rgb.
  set (idx := ((snd pix * size + fst pix) * 4)%Z).
  assert (H0 : (0 <= idx)%Z) by (unfold idx; nia).
  assert (Hlt : (idx + 3 < size * size * 4)%Z) by (unfold idx; nia).
  destruct (data_get_in_range data (idx + 0)) as (r & _ & ->); [lia | lia |].
  destruct (data_get_in_range data (idx + 1)) as (g & _ & ->); [lia | lia |].
  destruct (data_get_in_range data (idx + 2)) as (b & _ & ->); [lia | lia |].
  eexists. reflexivity.
Qed.

(** ** The sampler *)

(** Case analysis on the buffer reads that a goal scrutinizes. *)
Ltac destruct_reads :=
  repeat match goal with
  | |- context [match data_get ?d ?i with _ => _ end] =>
      let v := fresh "v" in
      let Hread := fresh "Hread" in
      destruct (data_get d i) as [v|] eqn:Hread
  end.

(** [sample] in terms of the pixel it reads. *)
Lemma sample_of_pixel (P : Platform) (size : Z) (data : list Z) (inv : bool)
    (g x y : R) (rgb : R * R * R) :
  pixel_rgb size data (sample_pixel size x y) = Some rgb ->
  sample P size data inv g x y
  = Some (clamp (Math_pow P (if inv then 1 - brightness rgb / 255
                              else brightness rgb / 255) g) 0 1).
Proof.
  unfold pixel_rgb, sample, sample_pixel. cbn [fst snd]. cbv zeta.
  destruct_reads; try discriminate.
  intros [= <-]. reflexivity.
Qed.

Lemma pixel_rgb_bytes (size : Z) (data : list Z) (pix : Z * Z) (rgb : R * R * R) :
  bytes data -> pixel_rgb size data pix = Some rgb ->
  0 <= brightness rgb <= 255.
Proof.
  intros Hb. unfold pixel_rgb. cbv zeta.
  destruct_reads; try discriminate.
  intros [= <-]. simpl.
  pose proof (data_get_byte _ _ _ Hb Hread).
  pose proof (data_get_byte _ _ _ Hb Hread0).
  pose proof (data_get_byte _ _ _ Hb Hread1).
  lra.
Qed.

(** The colour bytes [sample] finds for a pixel of the canvas are those of
    the bitmap the buffer was read from. *)
Lemma pixel_rgb_getImageData (bmp : Bitmap) (size : Z) (pix : Z * Z) :
  (0 <= fst pix <= size - 1)%Z -> (0 <= snd pix <= size - 1)%Z ->
  pixel_rgb size (getImageData bmp size) pix
  = Some (IZR (red (bmp (fst pix) (snd pix))),
          IZR (green (bmp (fst pix) (snd pix))),
          IZR (blue (bmp (fst pix) (snd pix)))).
Proof.
  intros Hx Hy. destruct pix as [ix iy]; cbn [fst snd] in *.
  unfold pixel_rgb; cbn [fst snd].
  assert (Hget : forall c : nat, (c < 4)%nat ->
    data_get (getImageData bmp size) ((iy * size + ix) * 4 + Z.of_nat c)
    = option_map IZR (nth_error (rgba_bytes (bmp ix iy)) c)).
  { intros c Hc. unfold data_get.
    destruct (_ <? 0)%Z eqn:E; [apply Z.ltb_lt in E; nia|].
    now rewrite getImageData_nth by lia. }
  pose proof (Hget 0%nat ltac:(lia)) as H0.
  pose proof (Hget 1%nat ltac:(lia)) as H1.
  pose proof (Hget 2%nat ltac:(lia)) as H2.
  simpl Z.of_nat in H0, H1, H2. rewrite H0, H1, H2. reflexivity.
Qed.

(** Every pixel of a cleared working buffer reads as three zero bytes. *)
Lemma cleared_pixel_rgb (bmp : Bitmap) (size : Z) (pix : Z * Z) :
  (0 <= fst pix <= size - 1)%Z -> (0 <= snd pix <= size - 1)%Z ->
  pixel_rgb size (getImageData (clearRect 0 0 size size bmp) size) pix
  = Some (0, 0, 0).
Proof.
  intros Hx Hy. rewrite pixel_rgb_getImageData by assumption.
  unfold clearRect.
  replace ((0 <=? fst pix) && (fst pix <? 0 + size) && (0 <=? snd pix)
           && (snd pix <? 0 + size))%Z with true; [reflexivity|].
  symmetry. rewrite !andb_true_iff, !Z.leb_le, !Z.ltb_lt. lia.
Qed.

(** C4. On a buffer of [size * size] RGBA bytes, [sample] reads the red,
    green and blue bytes [r], [g], [b] of the pixel it addresses and
    returns, in this order of operations: the weighted sum
    [0.2126 r + 0.7152 g + 0.0722 b] divided by 255, which lies in [0,1];
    its complement [1 - lum] when [invert] is set, which lies in [0,1] too;
    that number raised to the power [gamma]; and the power brought back
    into [0,1], to 0 when it is below and to 1 when it is above. The result
    is the one the pipeline of the specification composes. *)
Theorem sample_is_normalize_invert_gamma_clamp (P : Platform) (size : Z)
    (data : list Z) (inv : bool) (g : R) (x y : R) :
  (1 <= size)%Z ->
  length data = Z.to_nat (size * size * 4) ->
  bytes data ->
  let idx := ((floor_then_clamp size y * size + floor_then_clamp size x) * 4)%Z in
  exists r gr bl : Z,
    nth_error data (Z.to_nat idx) = Some r /\
    nth_error data (Z.to_nat (idx + 1)) = Some gr /\
    nth_error data (Z.to_nat (idx + 2)) = Some bl /\
    let lum0 := (0.2126 * IZR r + 0.7152 * IZR gr + 0.0722 * IZR bl) / 255 in
    let lum1 := if inv then 1 - lum0 else lum0 in
    let lum2 := Math_pow P lum1 g in
    0 <= lum0 <= 1 /\
    0 <= lum1 <= 1 /\
    sample P size data inv g x y = Some (Rmax 0 (Rmin 1 lum2)) /\
    (0 <= lum2 <= 1 -> sample P size data inv g x y = Some lum2) /\
    (lum2 <= 0 -> sample P size data inv g x y = Some 0) /\
    (1 <= lum2 -> sample P size data inv g x y = Some 1) /\
    sample P size data inv g x y = sample_pipeline P size data inv g x y.
Proof.
  intros Hsize Hlen Hb idx.
  destruct (sample_pixel_in_range size x y Hsize) as [Hx Hy].
  unfold sample_pixel in Hx, Hy. cbn [fst snd] in Hx, Hy.
  rewrite floor_clamp_commute in Hx, Hy by exact Hsize.
  assert (H0 : (0 <= idx)%Z) by (unfold idx; nia).
  assert (Hlt : (idx + 3 < size * size * 4)%Z) by (unfold idx; nia).
  destruct (data_get_in_range data (idx + 0)) as (r & Hr & Gr); [lia | lia |].
  destruct (data_get_in_range data (idx + 1)) as (gr & Hg & Gg); [lia | lia |].
  destruct (data_get_in_range data (idx + 2)) as (bl & Hbl & Gbl); [lia | lia |].
  rewrite Z.add_0_r in Hr.
  exists r, gr, bl.
  split; [exact Hr|]. split; [exact Hg|]. split; [exact Hbl|].
  intros lum0 lum1 lum2.
  pose proof (data_get_byte _ _ _ Hb Gr) as Br.
  pose proof (data_get_byte _ _ _ Hb Gg) as Bg.
  pose proof (data_get_byte _ _ _ Hb Gbl) as Bb.
  assert (Hlum0 : 0 <= lum0 <= 1) by (unfold lum0; lra).
  assert (Hlum1 : 0 <= lum1 <= 1) by (unfold lum1; destruct inv; lra).
  assert (Hs : sample P size data inv g x y = Some (Rmax 0 (Rmin 1 lum2))).
  { unfold sample. cbv zeta.
    rewrite !floor_clamp_commute by exact Hsize.
    fold idx. rewrite Gr, Gg, Gbl. reflexivity. }
  split; [exact Hlum0|]. split; [exact Hlum1|]. split; [exact Hs|].
  split; [|split; [|split]].
  - intros [Hlo Hhi]. rewrite Hs. f_equal.
    rewrite (Rmin_right 1 lum2 Hhi). now apply Rmax_right.
  - intros Hlo. rewrite Hs. f_equal.
    rewrite (Rmin_right 1 lum2) by lra. now apply Rmax_left.
  - intros Hhi. rewrite Hs. f_equal.
    rewrite (Rmin_left 1 lum2 Hhi). apply Rmax_right. lra.
  - rewrite Hs. unfold sample_pipeline, pixel_rgb, sample_pixel.
    cbn [fst snd]. rewrite !floor_clamp_commute by exact Hsize.
    fold idx. rewrite Gr, Gg, Gbl. reflexivity.
Qed.

(** The order of the steps shows on a grey pixel of value 51, whose weighted
    sum over 255 is 0.2: with [invert] set and [gamma = 2] the sample is
    [(1 - 0.2)² = 0.64], where the power taken before the inversion would
    give [1 - 0.2² = 0.96]. *)
Lemma sample_order_witness :
  sample reference_platform 1 [51; 51; 51; 255]%Z true 2 0 0 = Some 0.64.
Proof.
  pose proof (sample_is_normalize_invert_gamma_clamp reference_platform 1
                [51; 51; 51; 255]%Z true 2 0 0) as H.
  assert (Hidx : ((floor_then_clamp 1 0 * 1 + floor_then_clamp 1 0) * 4 = 0)%Z)
    by (unfold floor_then_clamp; lia).
  cbv zeta in H. rewrite Hidx in H.
  destruct H as (r & gr & bl & Hr & Hg & Hbl & _ & _ & _ & Hin & _).
  - lia.
  - reflexivity.
  - repeat constructor; lia.
  - injection Hr as <-. injection Hg as <-. injection Hbl as <-.
    assert (Hpow : Math_pow reference_platform
                     (1 - (0.2126 * 51 + 0.7152 * 51 + 0.0722 * 51) / 255) 2
                   = 0.64).
    { cbn [Math_pow reference_platform]. unfold real_pow.
      destruct (Rlt_dec 0 (1 - (0.2126 * 51 + 0.7152 * 51 + 0.0722 * 51) / 255))
        as [Hpos|Hneg]; [|lra].
      change 2 with (INR 2). rewrite Rpower_pow by exact Hpos.
      simpl. lra. }
    rewrite <- Hpow. apply Hin. rewrite Hpow. lra.
Defined.

(** C3. On a buffer of [size * size] RGBA pixels, for every pair of real
    coordinates, inside the canvas or not, [sample] addresses a pixel whose
    column and row lie in [0, size-1] (the clamp-then-floor of the code is
    the floor-then-clamp of the specification, per axis), the three bytes it
    reads lie inside the buffer, and it returns a number between 0 and 1. *)
Theorem sample_in_unit_interval_and_in_buffer (P : Platform) (size : Z)
    (data : list Z) (inv : bool) (g : R) (x y : R) :
  (1 <= size)%Z ->
  length data = Z.to_nat (size * size * 4) ->
  let ix := fst (sample_pixel size x y) in
  let iy := snd (sample_pixel size x y) in
  ix = floor_then_clamp size x /\ iy = floor_then_clamp size y /\
  (0 <= ix <= size - 1)%Z /\ (0 <= iy <= size - 1)%Z /\
  (0 <= (iy * size + ix) * 4)%Z /\
  ((iy * size + ix) * 4 + 2 < Z.of_nat (length data))%Z /\
  exists lum, sample P size data inv g x y = Some lum /\ 0 <= lum <= 1.
Proof.
  intros Hsize Hlen ix iy.
  destruct (sample_pixel_in_range size x y Hsize) as [Hx Hy].
  fold ix in Hx. fold iy in Hy.
  split; [apply floor_clamp_commute, Hsize|].
  split; [apply floor_clamp_commute, Hsize|].
  split; [exact Hx|]. split; [exact Hy|].
  split; [nia|]. split; [rewrite Hlen; nia|].
  destruct (pixel_rgb_defined size data (sample_pixel size x y) Hlen Hx Hy)
    as [rgb Hrgb].
  rewrite (sample_of_pixel P size data inv g x y rgb Hrgb).
  eexists. split; [reflexivity|]. apply clamp_bounds. lra.
Qed.

(** C10. [sample] reads the red, green and blue bytes only: two buffers that
    agree everywhere but on their alpha bytes give the same samples. A pixel
    of the cleared working buffer (all four bytes zero) has luminance 0
    before the inversion. *)
Theorem sample_ignores_alpha (P : Platform) (size : Z) (inv : bool) (g : R)
    (data1 data2 : list Z) (bmp : Bitmap) :
  (1 <= size)%Z ->
  same_rgb data1 data2 ->
  (forall x y, sample P size data1 inv g x y = sample P size data2 inv g x y) /\
  (forall x y,
     let cleared := getImageData (clearRect 0 0 size size bmp) size in
     pixel_rgb size cleared (sample_pixel size x y) = Some (0, 0, 0) /\
     normalize (0, 0, 0) = 0 /\
     sample P size cleared false g x y = Some (clamp (Math_pow P 0 g) 0 1)).
Proof.
  intros Hsize Hsame. split.
  - intros x y.
    assert (Hget : forall (m : Z) (c : nat), (c < 3)%nat ->
      data_get data1 (m * 4 + Z.of_nat c) = data_get data2 (m * 4 + Z.of_nat c)).
    { intros m c Hc. unfold data_get.
      destruct (_ <? 0)%Z eqn:E; [reflexivity|]. apply Z.ltb_ge in E.
      rewrite Hsame; [reflexivity|].
      replace (Z.to_nat (m * 4 + Z.of_nat c)) with (c + Z.to_nat m * 4)%nat by lia.
      rewrite Nat.Div0.mod_add, Nat.mod_small; lia. }
    unfold sample. cbv zeta.
    set (m := (Math_floor (clamp y 0 (IZR size - 1)) * size
               + Math_floor (clamp x 0 (IZR size - 1)))%Z).
    pose proof (Hget m 0%nat ltac:(lia)) as H0.
    pose proof (Hget m 1%nat ltac:(lia)) as H1.
    pose proof (Hget m 2%nat ltac:(lia)) as H2.
    simpl Z.of_nat in H0, H1, H2. rewrite H0, H1, H2. reflexivity.
  - intros x y cleared.
    destruct (sample_pixel_in_range size x y Hsize) as [Hx Hy].
    pose proof (cleared_pixel_rgb bmp size _ Hx Hy) as Hrgb.
    fold cleared in Hrgb.
    split; [exact Hrgb|]. split; [unfold normalize, brightness; lra|].
    rewrite (sample_of_pixel P size cleared false g x y _ Hrgb).
    unfold brightness. do 3 f_equal. lra.
Qed.

(** On integer coordinates of the canvas [sample] addresses that pixel. *)
Lemma sample_pixel_integer (size a b : Z) :
  (0 <= a <= size - 1)%Z -> (0 <= b <= size - 1)%Z ->
  sample_pixel size (IZR a) (IZR b) = (a, b).
Proof.
  intros Ha Hb. unfold sample_pixel.
  rewrite !floor_clamp_commute by lia. unfold floor_then_clamp.
  rewrite !ZfloorZ. f_equal; lia.
Qed.

Lemma real_pow_one (v : R) : 0 <= v -> real_pow v 1 = v.
Proof.
  intros Hv. unfold real_pow.
  destruct (Rlt_dec 0 v) as [Hpos | Hnpos].
  - now apply Rpower_1.
  - destruct (Req_dec_T 1 0) as [H10 | _]; lra.
Qed.

(** C7. With [gamma = 1], on a platform whose [Math.pow(v, 1)] is [v] on the
    unit interval, the value of [sample] is non-decreasing in the raw
    brightness of the pixel read (its weighted RGB sum) when [invert] is
    false, and non-increasing in it when [invert] is true. *)
Theorem sample_monotone_in_brightness (P : Platform) (size : Z)
    (data1 data2 : list Z) (x1 y1 x2 y2 : R) (rgb1 rgb2 : R * R * R) :
  (forall v, 0 <= v <= 1 -> Math_pow P v 1 = v) ->
  bytes data1 -> bytes data2 ->
  pixel_rgb size data1 (sample_pixel size x1 y1) = Some rgb1 ->
  pixel_rgb size data2 (sample_pixel size x2 y2) = Some rgb2 ->
  brightness rgb1 <= brightness rgb2 ->
  (exists l1 l2,
     sample P size data1 false 1 x1 y1 = Some l1 /\
     sample P size data2 false 1 x2 y2 = Some l2 /\ l1 <= l2) /\
  (exists l1 l2,
     sample P size data1 true 1 x1 y1 = Some l1 /\
     sample P size data2 true 1 x2 y2 = Some l2 /\ l2 <= l1).
Proof.
  intros Hpow Hb1 Hb2 H1 H2 Hle.
  pose proof (pixel_rgb_bytes _ _ _ _ Hb1 H1) as R1.
  pose proof (pixel_rgb_bytes _ _ _ _ Hb2 H2) as R2.
  split; eexists; eexists.
  - rewrite (sample_of_pixel P size data1 false 1 x1 y1 rgb1 H1).
    rewrite (sample_of_pixel P size data2 false 1 x2 y2 rgb2 H2).
    split; [reflexivity|]. split; [reflexivity|].
    rewrite !Hpow by lra. apply clamp_monotone. lra.
  - rewrite (sample_of_pixel P size data1 true 1 x1 y1 rgb1 H1).
    rewrite (sample_of_pixel P size data2 true 1 x2 y2 rgb2 H2).
    split; [reflexivity|]. split; [reflexivity|].
    rewrite !Hpow by lra. apply clamp_monotone. lra.
Qed.

(** ** The stroke width *)

(** The width the loop computes for a sample of luminance [lum]: on the
    first pass it is stored in [currentWidth], on the later ones it is
    assigned to [ctx.lineWidth] before the segment is appended. *)
Lemma loop_body_width (P : Platform) (p : Params) (data : list Z)
    (st : LoopState) :
  let x := b p * theta st * cos (theta st) in
  let y := b p * theta st * sin (theta st) in
  let w := option_map (fun lum => lerp (minWidth p) (maxWidth p) (1 - lum))
             (sample P (resolution p) data (invert p) (gamma p)
                (x + cx p) (y + cy p)) in
  loop_body P p data st
  = if first st
    then mkLoop (theta st + dTheta) x y false w (moveTo x y (ctx st))
    else mkLoop (theta st + dTheta) x y false (currentWidth st)
           (lineTo x y (set_lineWidth w (ctx st))).
Proof.
  unfold loop_body. cbv zeta.
  destruct (sample P (resolution p) data (invert p) (gamma p) _ _); reflexivity.
Qed.

(** On the working buffer of a render every sample has a width, and it
    lies between the two bounds. *)
Lemma sample_width_in_range (P : Platform) (p : Params) (bmp : Bitmap) (i : nat) :
  (1 <= resolution p)%Z -> minWidth p <= maxWidth p ->
  exists w,
    sample_width P p (getImageData bmp (resolution p)) i = Some w /\
    minWidth p <= w <= maxWidth p.
Proof.
  intros Hsize Hle. unfold sample_width.
  destruct (sample_pixel_in_range (resolution p) (fst (canvas_point p i))
              (snd (canvas_point p i)) Hsize) as [Hx Hy].
  rewrite (sample_of_pixel _ _ _ _ _ _ _ _
             (pixel_rgb_getImageData bmp _ _ Hx Hy)).
  cbn [option_map]. eexists. split; [reflexivity|].
  match goal with
  | |- context [clamp ?v 0 1] =>
      pose proof (clamp_bounds v 0 1 ltac:(lra)) as Hc; set (lum := clamp v 0 1) in *
  end.
  unfold lerp. nra.
Qed.

(** *** The end points in binary64 *)

(** A finite float is a zero or a signed mantissa with an exponent. *)
Lemma finite_cases (x : float) :
  is_finite x = true ->
  (exists s, Prim2SF x = S754_zero s) \/
  (exists s m e, Prim2SF x = S754_finite s m e).
Proof.
  unfold is_finite, is_nan, is_infinity.
  rewrite !eqb_spec, abs_spec.
  change (Prim2SF infinity) with (S754_infinity false).
  destruct (Prim2SF x) as [s | s | | s m e]; cbn.
  - intros _. left. now exists s.
  - destruct s; discriminate.
  - discriminate.
  - intros _. right. now exists s, m, e.
Qed.

(** At shade 0 nothing is rounded: the product is a zero and adding it
    leaves [a] (up to the sign of a zero). *)
Lemma lerp64_at_0 (a b : float) :
  is_finite a = true -> is_finite (b - a) = true ->
  (lerp64 a b 0 =? a)%float = true.
Proof.
  intros Ha Hd. unfold lerp64.
  rewrite eqb_spec, add_spec, mul_spec.
  change (Prim2SF 0) with (S754_zero false).
  destruct (finite_cases _ Hd) as [[s ->] | (s & m & e & ->)];
  destruct (finite_cases _ Ha) as [[sa ->] | (sa & ma & ea & ->)]; cbn.
  all: try (destruct s, sa; reflexivity).
  all: unfold SFeqb; cbn; rewrite Z.compare_refl, Pos.compare_cont_refl;
    destruct sa; reflexivity.
Qed.

(** Counterexample to C6 as stated: with [minWidth = 0.2] and
    [maxWidth = 0.9] the width at shade 1 is [0.2 + (0.9 - 0.2)], which
    binary64 rounds to 0.8999999999999999, below [maxWidth]. *)
Lemma lerp64_misses_maxWidth : ~ reaches_maxWidth 0.2 0.9.
Proof.
  unfold reaches_maxWidth. intros H.
  assert (E : (lerp64 0.2 0.9 1 <? 0.9)%float = true) by reflexivity.
  rewrite H in E. discriminate E.
Qed.

(** C6 (amended). The stroke width of a sample is
    [lerp minWidth maxWidth shade] with [shade = 1 - luminance]. Given
    [minWidth <= maxWidth] it is monotone in the shade (strictly so when
    [minWidth < maxWidth]) and it is [minWidth] at shade 0, in binary64 too.
    At shade 1 it is [minWidth + (maxWidth - minWidth)]: [maxWidth] in exact
    arithmetic, and in binary64 for the default widths 0.6 and 4.2, but not
    for every pair of widths. *)
Theorem stroke_width_monotone_in_shade (P : Platform) (p : Params)
    (data : list Z) (st : LoopState) :
  minWidth p <= maxWidth p ->
  let w := lerp (minWidth p) (maxWidth p) in
  let x := b p * theta st * cos (theta st) in
  let y := b p * theta st * sin (theta st) in
  (forall lum,
     sample P (resolution p) data (invert p) (gamma p) (x + cx p) (y + cy p)
     = Some lum ->
     loop_body P p data st
     = if first st
       then mkLoop (theta st + dTheta) x y false (Some (w (1 - lum)))
              (moveTo x y (ctx st))
       else mkLoop (theta st + dTheta) x y false (currentWidth st)
              (lineTo x y (set_lineWidth (Some (w (1 - lum))) (ctx st)))) /\
  (forall s1 s2, s1 <= s2 -> w s1 <= w s2) /\
  (minWidth p < maxWidth p -> forall s1 s2, s1 < s2 -> w s1 < w s2) /\
  w 0 = minWidth p /\
  w 1 = minWidth p + (maxWidth p - minWidth p) /\
  minWidth p + (maxWidth p - minWidth p) = maxWidth p /\
  (forall a c : float,
     is_finite a = true -> is_finite (c - a) = true ->
     (lerp64 a c 0 =? a)%float = true) /\
  (lerp64 0.6 4.2 1 =? 4.2)%float = true.
Proof.
  intros Hle w x y. unfold w, lerp.
  split; [|repeat split].
  - intros lum Hs. rewrite loop_body_width. cbv zeta.
    fold x y. rewrite Hs. reflexivity.
  - intros s1 s2 Hs. nra.
  - intros Hlt s1 s2 Hs. nra.
  - ring.
  - ring.
  - ring.
  - apply lerp64_at_0.
Qed.

(** ** The loop *)

Lemma loop_body_theta (P : Platform) (p : Params) (data : list Z) (st : LoopState) :
  theta (loop_body P p data st) = theta st + dTheta.
Proof. rewrite loop_body_width. cbv zeta. destruct (first st); reflexivity. Qed.

Lemma walk_succ (P : Platform) (p : Params) (data : list Z) (n : nat) :
  forall st, walk P p data (S n) st = loop_body P p data (walk P p data n st).
Proof.
  induction n as [|n IH]; intros st; [reflexivity|].
  change (walk P p data (S (S n)) st)
    with (walk P p data (S n) (loop_body P p data st)).
  rewrite IH. reflexivity.
Qed.

(** The loop makes exactly [n] passes when the test holds before each of
    them and fails after the last; a budget of [n] is then enough. *)
Lemma spiral_loop_walk (P : Platform) (p : Params) (data : list Z) (n : nat) :
  forall st,
    (forall j, (j < n)%nat -> theta st + INR j * dTheta < maxTheta p) ->
    ~ theta st + INR n * dTheta < maxTheta p ->
    spiral_loop P p data n st = Ok (walk P p data n st).
Proof.
  induction n as [|n IH]; intros st Hlt Hge.
  - simpl in *. destruct (Rlt_dec (theta st) (maxTheta p)) as [H|H]; [|reflexivity].
    exfalso. apply Hge. lra.
  - cbn [spiral_loop walk].
    destruct (Rlt_dec (theta st) (maxTheta p)) as [H|H].
    + apply IH.
      * intros j Hj. rewrite loop_body_theta.
        specialize (Hlt (S j) ltac:(lia)). rewrite S_INR in Hlt. lra.
      * rewrite loop_body_theta. rewrite S_INR in Hge. lra.
    + exfalso. apply H. specialize (Hlt 0%nat ltac:(lia)). simpl in Hlt. lra.
Qed.

Lemma dTheta_pos : 0 < dTheta.
Proof. unfold dTheta. lra. Qed.

(** [passes p] is the number of multiples of [dTheta] below [maxTheta]. *)
Lemma passes_below (p : Params) (j : nat) :
  (j < passes p)%nat -> INR j * dTheta < maxTheta p.
Proof.
  unfold passes. intros Hj.
  pose proof (Zceil_bound (maxTheta p / dTheta)) as [Hlo _].
  pose proof dTheta_pos as Hd.
  assert (Hz : (Z.of_nat j <= Zceil (maxTheta p / dTheta) - 1)%Z) by lia.
  apply IZR_le in Hz. rewrite minus_IZR, <- INR_IZR_INZ in Hz.
  assert (Hq : INR j < maxTheta p / dTheta) by lra.
  apply (Rmult_lt_compat_r dTheta) in Hq; [|exact Hd].
  unfold Rdiv in Hq. rewrite Rmult_assoc, Rinv_l in Hq by lra. lra.
Qed.

Lemma passes_reached (p : Params) : ~ INR (passes p) * dTheta < maxTheta p.
Proof.
  unfold passes. intros Hlt.
  pose proof (Zceil_bound (maxTheta p / dTheta)) as [_ Hhi].
  pose proof dTheta_pos as Hd.
  assert (Hq : maxTheta p / dTheta <= INR (Z.to_nat (Zceil (maxTheta p / dTheta)))).
  { destruct (Z_le_gt_dec 0 (Zceil (maxTheta p / dTheta))) as [Hz|Hz].
    - rewrite INR_IZR_INZ, Z2Nat.id by exact Hz. exact Hhi.
    - replace (Z.to_nat (Zceil (maxTheta p / dTheta))) with 0%nat by lia.
      simpl. apply Z.gt_lt in Hz. apply (IZR_lt _ 0) in Hz. lra. }
  apply (Rmult_le_compat_r dTheta) in Hq; [|lra].
  unfold Rdiv in Hq. rewrite Rmult_assoc, Rinv_l in Hq by lra. lra.
Qed.

(** The loop of [renderSpiral] terminates within its budget. *)
Lemma spiral_loop_terminates (P : Platform) (p : Params) (data : list Z)
    (st : LoopState) :
  theta st = 0 ->
  spiral_loop P p data (passes p) st = Ok (walk P p data (passes p) st).
Proof.
  intros H0. apply spiral_loop_walk.
  - intros j Hj. rewrite H0, Rplus_0_l. now apply passes_below.
  - rewrite H0, Rplus_0_l. apply passes_reached.
Qed.

Lemma with_lineWidth_same (s : DrawState) : with_lineWidth (lineWidth s) s = s.
Proof. destruct s; reflexivity. Qed.

Lemma set_lineWidth_accept (w : option R) (c : Ctx) :
  set_lineWidth w c
  = mkCtx (with_lineWidth (accept_lineWidth w (lineWidth (state c))) (state c))
      (saved c) (path c) (painted c).
Proof.
  unfold set_lineWidth, accept_lineWidth.
  destruct w as [v|]; [destruct (Rlt_dec 0 v)|];
    try reflexivity; rewrite with_lineWidth_same; destruct c; reflexivity.
Qed.

(** The state of the loop after [n] passes from its initial state, on a
    context translated to the centre of the canvas, with an empty path and
    the default line width. *)
Lemma walk_from_start (P : Platform) (p : Params) (data : list Z) (c0 : Ctx)
    (n : nat) :
  path c0 = [] ->
  origin (state c0) = (cx p, cy p) ->
  lineWidth (state c0) = 1 ->
  let st := walk P p data n (mkLoop 0 0 0 true None c0) in
  theta st = sample_theta n /\
  first st = match n with O => true | S _ => false end /\
  ctx st = mkCtx (with_lineWidth (lineWidth_after P p data n) (state c0))
             (saved c0) (spiral_path p n) (painted c0).
Proof.
  intros Hpath Horigin Hwidth.
  induction n as [|n IH]; cbv zeta.
  - simpl. unfold sample_theta. simpl.
    split; [lra|]. split; [reflexivity|].
    rewrite <- Hwidth, with_lineWidth_same, <- Hpath. destruct c0; reflexivity.
  - cbv zeta in IH. destruct IH as (Htheta & Hfirst & Hctx).
    rewrite walk_succ.
    set (st := walk P p data n (mkLoop 0 0 0 true None c0)) in *.
    rewrite loop_body_width. cbv zeta.
    rewrite Htheta, Hfirst, Hctx.
    fold (sample_point p n).
    change (b p * sample_theta n * cos (sample_theta n)) with (fst (sample_point p n)).
    change (b p * sample_theta n * sin (sample_theta n)) with (snd (sample_point p n)).
    fold (canvas_point p n).
    change (fst (sample_point p n) + cx p) with (fst (canvas_point p n)).
    change (snd (sample_point p n) + cy p) with (snd (canvas_point p n)).
    fold (sample_width P p data n).
    destruct n as [|m].
    + cbn [theta first ctx]. split; [unfold sample_theta; rewrite S_INR; simpl; lra|].
      split; [reflexivity|].
      unfold moveTo. cbn [state saved path painted with_lineWidth origin].
      rewrite Horigin. reflexivity.
    + cbn [theta first ctx]. split; [unfold sample_theta; rewrite !S_INR; lra|].
      split; [reflexivity|].
      rewrite set_lineWidth_accept. unfold lineTo.
      cbn [state saved path painted with_lineWidth origin lineWidth].
      rewrite Horigin. cbn [fst snd].
      f_equal.
      cbn [spiral_path]. rewrite (seq_S m 1), map_app. reflexivity.
Qed.

(** The segments of the spiral path: one from each sample to the next. *)
Lemma segments_from_lines (p : Params) (m : nat) :
  forall k,
    segments_from (Some (canvas_point p k))
      (map (fun i => LineTo (fst (canvas_point p i)) (snd (canvas_point p i)))
         (seq (S k) m))
    = map (spiral_segment p) (seq (S k) m).
Proof.
  induction m as [|m IH]; intros k; [reflexivity|].
  cbn [seq map segments_from].
  rewrite <- surjective_pairing. rewrite IH. f_equal.
  unfold spiral_segment. replace (S k - 1)%nat with k by lia. reflexivity.
Qed.

Lemma spiral_path_segments (p : Params) (n : nat) :
  segments (spiral_path p n) = map (spiral_segment p) (seq 1 (n - 1)).
Proof.
  destruct n as [|m]; [reflexivity|].
  unfold segments, spiral_path. cbn [segments_from].
  rewrite <- surjective_pairing, segments_from_lines.
  now rewrite Nat.sub_succ, Nat.sub_0_r.
Qed.

(** ** The render *)

(** On a drawable configuration a render returns, and leaves on the page the
    background and one stroke of the spiral path through the [passes p]
    samples; nothing of the page it started from remains. *)
Lemma renderSpiral_ok (P : Platform) (p : Params) (img : Image) (pg : Page) :
  drawable p ->
  renderSpiral P p (Some img) pg = Ok (rendered_page P p img).
Proof.
  intros [Hsize Hrad].
  unfold renderSpiral, rendered_page. cbv zeta.
  unfold getImageData_checked.
  destruct (resolution p =? 0)%Z eqn:E; [apply Z.eqb_eq in E; lia|].
  cbn [bind].
  change (drawImage P img _ _ _ _ _) with (prepare P img (resolution p)).
  set (data := getImageData (prepare P img (resolution p)) (resolution p)).
  unfold rendered_ctx, stroke_state, clip_region, background.
  destruct (cropToCircle p) eqn:Hcrop.
  - specialize (Hrad eq_refl). unfold arc.
    destruct (Rlt_dec (IZR (resolution p) / 2 - maxWidth p) 0) as [H|_]; [lra|].
    cbn [bind].
    rewrite spiral_loop_terminates by reflexivity. cbn [bind].
    match goal with
    | |- context [walk P p data (passes p) (mkLoop 0 0 0 true None ?c)] =>
        destruct (walk_from_start P p data c (passes p)) as (_ & _ & ->)
    end.
    + reflexivity.
    + cbn. now rewrite !Rplus_0_l.
    + reflexivity.
    + cbn. rewrite !Rplus_0_l, !Rplus_0_r. reflexivity.
  - cbn [bind].
    rewrite spiral_loop_terminates by reflexivity. cbn [bind].
    match goal with
    | |- context [walk P p data (passes p) (mkLoop 0 0 0 true None ?c)] =>
        destruct (walk_from_start P p data c (passes p)) as (_ & _ & ->)
    end.
    + reflexivity.
    + cbn. now rewrite !Rplus_0_l.
    + reflexivity.
    + cbn. rewrite !Rplus_0_l. reflexivity.
Qed.

(** A render never exhausts the budget of its loop: it returns or throws. *)
Lemma renderSpiral_terminates (P : Platform) (p : Params) (img : option Image)
    (pg : Page) :
  renderSpiral P p img pg <> OutOfFuel.
Proof.
  unfold renderSpiral. destruct img as [img|]; [|discriminate].
  cbv zeta. unfold getImageData_checked.
  destruct (resolution p =? 0)%Z; [discriminate|]. cbn [bind].
  destruct (cropToCircle p).
  - unfold arc. destruct (Rlt_dec _ 0); [discriminate|]. cbn [bind].
    rewrite spiral_loop_terminates by reflexivity. discriminate.
  - cbn [bind]. rewrite spiral_loop_terminates by reflexivity. discriminate.
Qed.

(** ** The widths a stroke paints *)

(** Whatever widths the samples asked for, the one stroke of a render
    paints every segment of the path with the same width: the value of
    [lineWidth] when [stroke] is called, left by the last assignment that
    the setter accepted. *)
Lemma rendered_ctx_segments (P : Platform) (p : Params) (data : list Z) :
  rendered_segments (rendered_ctx P p data)
  = map (fun i => (spiral_segment p i, lineWidth_after P p data (passes p)))
      (seq 1 (passes p - 1)).
Proof.
  unfold rendered_segments, rendered_ctx. cbn [painted flat_map stroked background].
  rewrite app_nil_r. cbn [app]. rewrite spiral_path_segments, map_map.
  reflexivity.
Qed.

(** ** Bounds on [PI] and on the trigonometric functions *)

Lemma PI_bounds : 3 < PI <= 4.
Proof. pose proof PI2_3_2. pose proof PI_4. lra. Qed.

(** For a small positive angle the cosine is close to 1. *)
Lemma cos_small (t : R) : 0 < t -> t <= 1 -> 1 - t * t <= cos t <= 1.
Proof.
  intros H0 H1. pose proof PI_bounds as [HPI _].
  pose proof (sin_lt_x t H0) as Hs.
  pose proof (sin_gt_0 t H0 ltac:(lra)) as Hs0.
  pose proof (cos_ge_0 t ltac:(lra) ltac:(lra)) as Hc0.
  pose proof (COS_bound t) as [_ Hc1].
  pose proof (sin2_cos2 t) as Hsc. unfold Rsqr in Hsc.
  split; [nra | exact Hc1].
Qed.

Lemma sin_small (t : R) : 0 < t -> t <= 1 -> 0 <= sin t <= t.
Proof.
  intros H0 H1. pose proof PI_bounds as [HPI _].
  pose proof (sin_lt_x t H0). pose proof (sin_gt_0 t H0 ltac:(lra)). lra.
Qed.

(** ** The extent of the spiral *)

Lemma b_pos (p : Params) : 0 < lineSpacing p -> 0 < b p.
Proof.
  intros Hls. unfold b. pose proof PI_RGT_0.
  apply Rdiv_lt_0_compat; lra.
Qed.

Lemma radius_below_maxR (p : Params) (t : R) :
  0 < lineSpacing p -> t < maxTheta p -> b p * t < maxR p.
Proof.
  intros Hls Ht. pose proof (b_pos p Hls) as Hb.
  assert (Hq : t < maxR p / b p).
  { eapply Rlt_le_trans; [exact Ht|]. unfold maxTheta, Math_min. apply Rmin_l. }
  apply (Rmult_lt_compat_l (b p)) in Hq; [|exact Hb].
  unfold Rdiv in Hq. rewrite (Rmult_comm (maxR p)), <- Rmult_assoc in Hq.
  rewrite Rinv_r, Rmult_1_l in Hq by lra. exact Hq.
Qed.

Lemma sample_point_radius (p : Params) (i : nat) :
  (fst (sample_point p i))² + (snd (sample_point p i))²
  = (b p * sample_theta i)².
Proof.
  unfold sample_point; cbn [fst snd]. unfold Rsqr.
  pose proof (sin2_cos2 (sample_theta i)) as H. unfold Rsqr in H. nra.
Qed.

(** C5. [maxTheta] is the smaller of [maxR / b] and [2 PI turns], with
    [b = lineSpacing / (2 PI)] and [maxR = resolution/2 - maxWidth * 1.5].
    For a positive line spacing, every angle below [maxTheta] has its radius
    [b * theta] below [maxR]; in particular every sample the loop takes lies
    within [maxR] of the centre. *)
Theorem radius_never_exceeds_maxR (p : Params) :
  0 < lineSpacing p ->
  b p = lineSpacing p / (2 * PI) /\
  maxR p = IZR (resolution p) / 2 - maxWidth p * 1.5 /\
  maxTheta p = Rmin (maxR p / b p) (2 * PI * turns p) /\
  (forall t, t < maxTheta p -> b p * t <= maxR p) /\
  (forall i, (i < passes p)%nat ->
     b p * sample_theta i <= maxR p /\
     (fst (sample_point p i))² + (snd (sample_point p i))² <= (maxR p)²).
Proof.
  intros Hls.
  split; [reflexivity|]. split; [reflexivity|].
  split; [unfold maxTheta, Math_min; f_equal; ring|].
  split.
  - intros t Ht. left. now apply radius_below_maxR.
  - intros i Hi.
    assert (Hr : b p * sample_theta i < maxR p).
    { apply radius_below_maxR; [exact Hls|]. now apply passes_below. }
    split; [lra|].
    rewrite sample_point_radius.
    assert (H0 : 0 <= b p * sample_theta i).
    { apply Rmult_le_pos; [left; now apply b_pos|].
      unfold sample_theta. apply Rmult_le_pos; [apply pos_INR|].
      left. apply dTheta_pos. }
    apply Rsqr_incr_1; lra.
Qed.

(** ** Degenerate configurations *)

Lemma passes_zero (p : Params) : maxTheta p <= 0 -> passes p = 0%nat.
Proof.
  intros Hle. unfold passes.
  pose proof (Zceil_bound (maxTheta p / dTheta)) as [Hlo _].
  pose proof dTheta_pos as Hd.
  assert (Hq : maxTheta p / dTheta <= 0).
  { unfold Rdiv. rewrite <- (Rmult_0_l (/ dTheta)).
    apply Rmult_le_compat_r; [left; now apply Rinv_0_lt_compat | exact Hle]. }
  assert (Hz : (Zceil (maxTheta p / dTheta) < 1)%Z).
  { apply lt_IZR. lra. }
  lia.
Qed.

Lemma turns_zero_maxTheta (p : Params) : turns p = 0 -> maxTheta p <= 0.
Proof.
  intros Ht. unfold maxTheta, Math_min. rewrite Ht, Rmult_0_r. apply Rmin_r.
Qed.

(** Without a pass the path is empty and the stroke paints nothing. *)
Lemma renderSpiral_no_pass (P : Platform) (p : Params) (img : Image) (pg : Page) :
  drawable p -> maxTheta p <= 0 ->
  exists pg',
    renderSpiral P p (Some img) pg = Ok pg' /\
    path (context (canvas pg')) = [] /\
    rendered_segments (context (canvas pg')) = [] /\
    exists ds, painted (context (canvas pg')) = [background p; Stroke [] ds].
Proof.
  intros Hd Hle. exists (rendered_page P p img).
  split; [now apply renderSpiral_ok|].
  unfold rendered_page, rendered_ctx. cbn [canvas context path painted].
  rewrite (passes_zero p Hle). cbn [spiral_path].
  split; [reflexivity|]. split; [reflexivity|].
  eexists. reflexivity.
Qed.

(** C8 (amended). With [turns = 0], on a drawable configuration, the render
    returns without an exception; the body of the loop never runs, so the
    path it strokes is empty (it has no point at all, not even a starting
    point) and the page shows the white background only. *)
Theorem turns_zero_renders_blank (P : Platform) (p : Params) (img : Image)
    (pg : Page) :
  turns p = 0 -> drawable p ->
  exists pg',
    renderSpiral P p (Some img) pg = Ok pg' /\
    path (context (canvas pg')) = [] /\
    rendered_segments (context (canvas pg')) = [] /\
    exists ds, painted (context (canvas pg')) = [background p; Stroke [] ds].
Proof.
  intros Ht Hd. apply renderSpiral_no_pass; [exact Hd|].
  now apply turns_zero_maxTheta.
Qed.

(** ** The working buffer *)

Lemma scale_pos (img : Image) (size : Z) :
  (1 <= size)%Z -> (0 < width img)%Z -> (0 < height img)%Z ->
  0 < scale img size.
Proof.
  intros Hs Hw Hh. apply IZR_le in Hs. apply IZR_lt in Hw, Hh.
  unfold scale, Math_min. apply Rmin_glb_lt; apply Rdiv_lt_0_compat; lra.
Qed.

Lemma drawW_fits (img : Image) (size : Z) :
  (0 < width img)%Z -> drawW img size <= IZR size.
Proof.
  intros Hw. apply IZR_lt in Hw. unfold drawW, scale, Math_min.
  apply Rle_trans with (IZR (width img) * (IZR size / IZR (width img))).
  - apply Rmult_le_compat_l; [lra | apply Rmin_l].
  - right. field. lra.
Qed.

Lemma drawH_fits (img : Image) (size : Z) :
  (0 < height img)%Z -> drawH img size <= IZR size.
Proof.
  intros Hh. apply IZR_lt in Hh. unfold drawH, scale, Math_min.
  apply Rle_trans with (IZR (height img) * (IZR size / IZR (height img))).
  - apply Rmult_le_compat_l; [lra | apply Rmin_r].
  - right. field. lra.
Qed.

Lemma draw_touches_a_side (img : Image) (size : Z) :
  (0 < width img)%Z -> (0 < height img)%Z ->
  drawW img size = IZR size \/ drawH img size = IZR size.
Proof.
  intros Hw Hh. apply IZR_lt in Hw, Hh. unfold drawW, drawH, scale, Math_min.
  destruct (Rle_dec (IZR size / IZR (width img)) (IZR size / IZR (height img)))
    as [Hle|Hgt].
  - left. rewrite Rmin_left by exact Hle. field. lra.
  - right. rewrite Rmin_right by lra. field. lra.
Qed.

(** What the image does not touch is what [clearRect] left. *)
Lemma letterbox_transparent (P : Platform) (img : Image) (size px py : Z) :
  letterbox img size px py -> prepare P img size px py = transparent.
Proof.
  intros (Hx & Hy & Ht). unfold prepare, drawImage. rewrite Ht.
  unfold clearRect. destruct (_ && _)%bool; reflexivity.
Qed.

Lemma letterbox_luminance (P : Platform) (img : Image) (size px py : Z) :
  letterbox img size px py -> luminance_at P img size px py = Some 0.
Proof.
  intros Hl. pose proof Hl as (Hx & Hy & _).
  unfold luminance_at. rewrite pixel_rgb_getImageData by assumption.
  cbn [fst snd]. rewrite (letterbox_transparent P img size px py Hl).
  cbn [option_map red green blue transparent]. f_equal.
  unfold normalize, brightness. lra.
Qed.

(** C2 (amended). The image is scaled by
    [min (size / width) (size / height)], which keeps its aspect ratio and
    makes it fit the square with one side filling it, and it is centred.
    The rest of the working buffer, the letterbox, is what [clearRect]
    left: transparent black, whose luminance before the inversion is 0. The
    white fill goes to the visible canvas, not to the working buffer. *)
Theorem prepare_fits_and_letterbox_is_clear (P : Platform) (img : Image)
    (size : Z) :
  (1 <= size)%Z -> (0 < width img)%Z -> (0 < height img)%Z ->
  scale img size = Rmin (IZR size / IZR (width img)) (IZR size / IZR (height img)) /\
  0 < scale img size /\
  drawW img size = IZR (width img) * scale img size /\
  drawH img size = IZR (height img) * scale img size /\
  drawW img size * IZR (height img) = drawH img size * IZR (width img) /\
  drawW img size <= IZR size /\ drawH img size <= IZR size /\
  (drawW img size = IZR size \/ drawH img size = IZR size) /\
  0 <= dx img size /\ 0 <= dy img size /\
  dx img size + drawW img size / 2 = IZR size / 2 /\
  dy img size + drawH img size / 2 = IZR size / 2 /\
  (forall px py, letterbox img size px py ->
     prepare P img size px py = transparent /\
     luminance_at P img size px py = Some 0) /\
  (forall p pg, resolution p = size -> drawable p ->
     exists pg',
       renderSpiral P p (Some img) pg = Ok pg' /\
       bitmap (hcan pg') = prepare P img size /\
       painted (context (canvas pg')) <> [] /\
       hd_error (painted (context (canvas pg'))) = Some (background p)).
Proof.
  intros Hs Hw Hh.
  pose proof (drawW_fits img size Hw) as HW.
  pose proof (drawH_fits img size Hh) as HH.
  split; [reflexivity|].
  split; [now apply scale_pos|].
  split; [reflexivity|]. split; [reflexivity|].
  split; [unfold drawW, drawH; ring|].
  split; [exact HW|]. split; [exact HH|].
  split; [now apply draw_touches_a_side|].
  split; [unfold dx; lra|]. split; [unfold dy; lra|].
  split; [unfold dx; lra|]. split; [unfold dy; lra|].
  split.
  - intros px py Hl. split;
      [now apply letterbox_transparent | now apply letterbox_luminance].
  - intros p pg Hres Hd. exists (rendered_page P p img).
    split; [now apply renderSpiral_ok|].
    unfold rendered_page. cbn. rewrite Hres.
    split; [reflexivity|]. split; [discriminate | reflexivity].
Qed.

(** ** The properties on concrete inputs *)

(** The hypotheses of the properties above are met by concrete inputs, and
    the statements that fail do so on concrete inputs. *)

Lemma default_params_drawable : drawable default_params.
Proof. split; [simpl; lia | intros _; simpl; lra]. Qed.

Lemma no_turns_drawable : drawable no_turns.
Proof. split; [simpl; lia | intros _; simpl; lra]. Qed.

Lemma wide_image_scale : scale wide_image 4 = 1.
Proof.
  unfold scale, Math_min. simpl. rewrite Rmin_left by lra. lra.
Qed.

Lemma wide_image_corner_is_letterbox : letterbox wide_image 4 0 0.
Proof.
  split; [lia|]. split; [lia|].
  unfold touches, dx, dy, drawW, drawH. rewrite wide_image_scale. simpl.
  repeat match goal with
  | |- context [Rlt_dec ?a ?b] => destruct (Rlt_dec a b)
  end; try reflexivity; lra.
Qed.

(** Counterexample to C2 as stated: the image of 4 by 2 pixels drawn on a
    canvas of 4 by 4 leaves the top row untouched, and the pixel in its
    corner samples with luminance 0, not 1. *)
Lemma letterbox_reads_black :
  ~ letterbox_is_white reference_platform wide_image 4.
Proof.
  intros Hwhite.
  specialize (Hwhite 0%Z 0%Z wide_image_corner_is_letterbox).
  rewrite (letterbox_luminance _ _ _ _ _ wide_image_corner_is_letterbox) in Hwhite.
  injection Hwhite as Hwhite. lra.
Qed.

(** The wide image fits the square, and its top left pixel is letterbox. *)
Lemma prepare_fits_witness :
  drawW wide_image 4 <= 4 /\ drawH wide_image 4 <= 4 /\
  prepare reference_platform wide_image 4 0%Z 0%Z = transparent /\
  luminance_at reference_platform wide_image 4 0%Z 0%Z = Some 0.
Proof.
  destruct (prepare_fits_and_letterbox_is_clear reference_platform wide_image 4)
    as (_ & _ & _ & _ & _ & HW & HH & _ & _ & _ & _ & _ & Hbox & _);
    [simpl; lia ..|].
  split; [exact HW|]. split; [exact HH|].
  apply Hbox, wide_image_corner_is_letterbox.
Defined.

(** Counterexample to C8 as stated: with [turns = 0] and the other
    parameters at their defaults the path of the render is not a lone
    starting point; it is empty. *)
Lemma no_turns_path_is_empty :
  ~ path_is_start_point reference_platform no_turns black_image fresh_page.
Proof.
  intros (pg' & x & y & Hr & Hp).
  rewrite (renderSpiral_ok _ _ _ _ no_turns_drawable) in Hr.
  injection Hr as <-.
  unfold rendered_page, rendered_ctx in Hp. cbn [canvas context path] in Hp.
  rewrite (passes_zero no_turns) in Hp; [discriminate|].
  now apply turns_zero_maxTheta.
Qed.

(** The default parameters with [turns = 0] render a blank page. *)
Lemma turns_zero_witness :
  exists pg',
    renderSpiral reference_platform no_turns (Some black_image) fresh_page = Ok pg' /\
    path (context (canvas pg')) = [] /\
    rendered_segments (context (canvas pg')) = [] /\
    exists ds, painted (context (canvas pg')) = [background no_turns; Stroke [] ds].
Proof.
  apply (turns_zero_renders_blank reference_platform no_turns black_image fresh_page).
  - reflexivity.
  - split; [simpl; lia | intros _; simpl; lra].
Defined.

(** A sample taken outside the working buffer of the wide image. *)
Lemma sample_in_unit_interval_witness :
  exists lum,
    sample reference_platform 4
      (getImageData (prepare reference_platform wide_image 4) 4)
      false 1.15 (-5) 7.5 = Some lum /\
    0 <= lum <= 1.
Proof.
  apply (sample_in_unit_interval_and_in_buffer reference_platform 4
           (getImageData (prepare reference_platform wide_image 4) 4)
           false 1.15 (-5) 7.5).
  - lia.
  - apply getImageData_length. lia.
Defined.

(** Two one-pixel buffers that differ in their alpha byte sample alike. *)
Lemma sample_ignores_alpha_witness :
  sample reference_platform 1 [10; 20; 30; 255]%Z true 1.15 0 0
  = sample reference_platform 1 [10; 20; 30; 0]%Z true 1.15 0 0.
Proof.
  apply (sample_ignores_alpha reference_platform 1 true 1.15
           [10; 20; 30; 255]%Z [10; 20; 30; 0]%Z (fun _ _ => white)).
  - lia.
  - intros i Hi. do 3 (destruct i as [|i]; [reflexivity|]).
    destruct i as [|i]; [exfalso; apply Hi; reflexivity | reflexivity].
Defined.

Lemma reference_pow_one (v : R) :
  0 <= v <= 1 -> Math_pow reference_platform v 1 = v.
Proof. intros [Hv _]. now apply real_pow_one. Qed.

(** A black and a white pixel, sampled with [gamma = 1] on the reference
    platform. *)
Lemma sample_monotone_witness :
  exists l1 l2,
    sample reference_platform 1 [0; 0; 0; 255]%Z false 1 0 0 = Some l1 /\
    sample reference_platform 1 [255; 255; 255; 255]%Z false 1 0 0 = Some l2 /\
    l1 <= l2.
Proof.
  apply (sample_monotone_in_brightness reference_platform 1
           [0; 0; 0; 255]%Z [255; 255; 255; 255]%Z 0 0 0 0
           (0, 0, 0) (255, 255, 255)).
  - exact reference_pow_one.
  - repeat constructor; lia.
  - repeat constructor; lia.
  - rewrite (sample_pixel_integer 1 0 0) by lia. reflexivity.
  - rewrite (sample_pixel_integer 1 0 0) by lia. reflexivity.
  - unfold brightness. lra.
Defined.

(** The end points of the stroke width for the default widths. *)
Lemma stroke_width_witness :
  lerp (minWidth default_params) (maxWidth default_params) 0 = 0.6 /\
  lerp (minWidth default_params) (maxWidth default_params) 1 = 0.6 + (4.2 - 0.6).
Proof.
  destruct (stroke_width_monotone_in_shade reference_platform default_params []
              (mkLoop 0 0 0 true None default_ctx))
    as (_ & _ & _ & H0 & H1 & _).
  - simpl. lra.
  - split; [exact H0 | exact H1].
Defined.

Lemma default_params_maxTheta_pos : 0 < maxTheta default_params.
Proof.
  pose proof PI_bounds as [Hlo Hhi].
  unfold maxTheta, Math_min, maxR, b.
  cbn [resolution maxWidth lineSpacing turns default_params].
  apply Rmin_glb_lt; [|lra].
  apply Rdiv_lt_0_compat; [lra|]. apply Rdiv_lt_0_compat; lra.
Qed.

(** The radius bound for the default parameters, at the first sample. *)
Lemma radius_witness : b default_params * 0 <= maxR default_params.
Proof.
  destruct (radius_never_exceeds_maxR default_params) as (_ & _ & _ & Hr & _).
  - simpl. lra.
  - apply Hr, default_params_maxTheta_pos.
Defined.

(** *** The default parameters on the dot image *)

Lemma dot_image_scale : scale dot_image 2048 = 1.
Proof. unfold scale, Math_min. simpl. rewrite Rmin_left by lra. lra. Qed.

(** The image is drawn pixel for pixel over the whole working buffer. *)
Lemma dot_prepare (ix iy : Z) :
  (0 <= ix <= 2047)%Z -> (0 <= iy <= 2047)%Z ->
  prepare reference_platform dot_image 2048 ix iy
  = if ((ix =? 1024) && (iy =? 1024))%Z then white else black.
Proof.
  intros Hx Hy.
  assert (Hx0 : 0 <= IZR ix) by (apply (IZR_le 0); lia).
  assert (Hx1 : IZR ix <= 2047) by (apply (IZR_le ix 2047); lia).
  assert (Hy0 : 0 <= IZR iy) by (apply (IZR_le 0); lia).
  assert (Hy1 : IZR iy <= 2047) by (apply (IZR_le iy 2047); lia).
  unfold prepare, drawImage, touches, dx, dy, drawW, drawH.
  rewrite dot_image_scale. cbn [width height dot_image].
  repeat match goal with
  | |- context [Rlt_dec ?a ?c] => destruct (Rlt_dec a c); try lra
  end.
  cbn [resample reference_platform]. unfold nearest_neighbour.
  cbn [pixels width height dot_image].
  rewrite (Zfloor_eq ix), (Zfloor_eq iy); [reflexivity | lra | lra].
Qed.

Lemma real_pow_of_one (g : R) : real_pow 1 g = 1.
Proof.
  unfold real_pow. destruct (Rlt_dec 0 1) as [_|H]; [|lra].
  unfold Rpower. now rewrite ln_1, Rmult_0_r, exp_0.
Qed.

Lemma real_pow_of_zero (g : R) : g <> 0 -> real_pow 0 g = 0.
Proof.
  intros Hg. unfold real_pow. destruct (Rlt_dec 0 0) as [H|_]; [lra|].
  destruct (Req_dec_T g 0) as [H|_]; [contradiction | reflexivity].
Qed.

(** A sample is 1 on the white pixel and 0 everywhere else. *)
Lemma dot_sample (x y : R) :
  sample reference_platform 2048 dot_data false 1.15 x y
  = Some (if ((floor_then_clamp 2048 x =? 1024)
              && (floor_then_clamp 2048 y =? 1024))%Z then 1 else 0).
Proof.
  destruct (sample_pixel_in_range 2048 x y ltac:(lia)) as [Hx Hy].
  unfold dot_data.
  rewrite (sample_of_pixel _ _ _ _ _ _ _ _
             (pixel_rgb_getImageData _ 2048 (sample_pixel 2048 x y) Hx Hy)).
  rewrite dot_prepare by lia.
  unfold sample_pixel. cbn [fst snd].
  rewrite !floor_clamp_commute by lia.
  cbn [Math_pow reference_platform].
  destruct ((floor_then_clamp 2048 x =? 1024) && (floor_then_clamp 2048 y =? 1024))%Z;
    cbn [red green blue white black brightness]; f_equal.
  - replace ((0.2126 * 255 + 0.7152 * 255 + 0.0722 * 255) / 255) with 1 by lra.
    rewrite real_pow_of_one. apply clamp_inside. lra.
  - replace ((0.2126 * 0 + 0.7152 * 0 + 0.0722 * 0) / 255) with 0 by lra.
    rewrite real_pow_of_zero by lra. apply clamp_inside. lra.
Qed.

Lemma default_b : 3 / 8 <= b default_params < 1 / 2.
Proof.
  pose proof PI_bounds as [Hlo Hhi].
  pose proof (b_pos default_params ltac:(simpl; lra)) as Hb.
  assert (E : b default_params * (2 * PI) = 3).
  { unfold b. cbn [lineSpacing default_params]. field. lra. }
  split; nra.
Qed.

(** With the defaults the 140 turns end before the margin is reached. *)
Lemma default_maxTheta : maxTheta default_params = PI * 2 * 140.
Proof.
  pose proof PI_bounds as [Hlo Hhi]. pose proof default_b as [Hb0 Hb1].
  assert (HmaxR : maxR default_params = 1017.7).
  { unfold maxR. cbn [resolution maxWidth default_params]. lra. }
  unfold maxTheta, Math_min. cbn [turns default_params].
  apply Rmin_right.
  apply Rmult_le_reg_r with (b default_params); [lra|].
  replace (maxR default_params / b default_params * b default_params)
    with (maxR default_params) by (field; lra).
  rewrite HmaxR. nra.
Qed.

Lemma default_passes : (2 <= passes default_params)%nat.
Proof.
  pose proof PI_bounds as [Hlo Hhi].
  pose proof (passes_reached default_params) as Hr.
  rewrite default_maxTheta in Hr. unfold dTheta in Hr.
  destruct (le_lt_dec 2 (passes default_params)) as [H|H]; [exact H|].
  exfalso. apply Hr.
  assert (Hn : INR (passes default_params) <= 1).
  { change 1 with (INR 1). apply le_INR. lia. }
  nra.
Qed.

(** Sample 1 is still on the white pixel. *)
Lemma default_sample_1 :
  ((floor_then_clamp 2048 (fst (canvas_point default_params 1)) =? 1024)
   && (floor_then_clamp 2048 (snd (canvas_point default_params 1)) =? 1024))%Z
  = true.
Proof.
  pose proof default_b as [Hb0 Hb1].
  pose proof (cos_small 0.015 ltac:(lra) ltac:(lra)) as [Hc0 Hc1].
  pose proof (sin_small 0.015 ltac:(lra) ltac:(lra)) as [Hs0 Hs1].
  assert (Hr : 0 <= b default_params * 0.015 < 1) by lra.
  assert (Hx : 0 <= b default_params * 0.015 * cos 0.015 < 1).
  { split; [apply Rmult_le_pos; lra|].
    apply Rle_lt_trans with (b default_params * 0.015 * 1); [|lra].
    apply Rmult_le_compat_l; lra. }
  assert (Hy : 0 <= b default_params * 0.015 * sin 0.015 < 1).
  { split; [apply Rmult_le_pos; lra|].
    apply Rle_lt_trans with (b default_params * 0.015 * 1); [|lra].
    apply Rmult_le_compat_l; lra. }
  unfold floor_then_clamp, canvas_point, sample_point, sample_theta, cx, cy, dTheta.
  cbn [fst snd resolution default_params INR].
  replace (1 * 0.015) with 0.015 by lra.
  rewrite (Zfloor_eq 1024), (Zfloor_eq 1024); [reflexivity | lra | lra].
Qed.

(** The last sample is hundreds of pixels away from it. *)
Lemma default_last_sample :
  ((floor_then_clamp 2048
      (fst (canvas_point default_params (passes default_params - 1))) =? 1024)
   && (floor_then_clamp 2048
         (snd (canvas_point default_params (passes default_params - 1))) =? 1024))%Z
  = false.
Proof.
  pose proof PI_bounds as [Hlo Hhi]. pose proof default_b as [Hb0 Hb1].
  pose proof default_passes as Hn.
  pose proof (passes_reached default_params) as Hr.
  rewrite default_maxTheta in Hr.
  set (i := (passes default_params - 1)%nat).
  assert (Hi : INR (passes default_params) = INR i + 1).
  { unfold i. rewrite <- S_INR. f_equal. lia. }
  rewrite Hi in Hr. unfold dTheta in Hr.
  assert (Htheta : 800 <= sample_theta i) by (unfold sample_theta, dTheta; nra).
  assert (Hrad : 300 <= b default_params * sample_theta i) by nra.
  pose proof (sample_point_radius default_params i) as Hsq. unfold Rsqr in Hsq.
  apply andb_false_iff.
  destruct (floor_then_clamp 2048 (fst (canvas_point default_params i)) =? 1024)%Z
    eqn:Ex; [|now left].
  destruct (floor_then_clamp 2048 (snd (canvas_point default_params i)) =? 1024)%Z
    eqn:Ey; [|now right].
  exfalso. apply Z.eqb_eq in Ex, Ey. unfold floor_then_clamp in Ex, Ey.
  assert (Fx : Zfloor (fst (canvas_point default_params i)) = 1024%Z) by lia.
  assert (Fy : Zfloor (snd (canvas_point default_params i)) = 1024%Z) by lia.
  pose proof (Zfloor_bound (fst (canvas_point default_params i))) as Bx.
  pose proof (Zfloor_bound (snd (canvas_point default_params i))) as By.
  rewrite Fx in Bx. rewrite Fy in By.
  unfold canvas_point, cx, cy in Bx, By.
  cbn [fst snd resolution default_params] in Bx, By.
  set (x := fst (sample_point default_params i)) in *.
  set (y := snd (sample_point default_params i)) in *.
  nra.
Qed.

Lemma default_width_1 :
  sample_width reference_platform default_params dot_data 1 = Some 0.6.
Proof.
  unfold sample_width. cbn [resolution invert gamma minWidth maxWidth default_params].
  rewrite dot_sample, default_sample_1. cbn [option_map]. f_equal.
  unfold lerp. lra.
Qed.

Lemma default_width_last :
  sample_width reference_platform default_params dot_data
    (passes default_params - 1) = Some 4.2.
Proof.
  unfold sample_width. cbn [resolution invert gamma minWidth maxWidth default_params].
  rewrite dot_sample, default_last_sample. cbn [option_map]. f_equal.
  unfold lerp. lra.
Qed.

Lemma default_lineWidth_at_stroke :
  lineWidth_after reference_platform default_params dot_data (passes default_params)
  = 4.2.
Proof.
  pose proof default_passes as Hn. pose proof default_width_last as Hw.
  destruct (passes default_params) as [|[|m]]; [lia | lia |].
  cbn [lineWidth_after].
  replace (S (S m) - 1)%nat with (S m) in Hw by lia.
  rewrite Hw. unfold accept_lineWidth.
  destruct (Rlt_dec 0 4.2) as [_|H]; [reflexivity | lra].
Qed.

(** C1, on a failing input: the default parameters and the dot image. The
    path is built as claimed, a [MoveTo] to sample 0 and a [LineTo] to each
    later sample, each after the width of its sample was assigned to
    [lineWidth]; sample 1 asks for the width 0.6 and the last sample for
    4.2. The one stroke that follows the loop paints every segment with
    the width 4.2 of the last sample: the segment from sample 0 to sample 1
    is not drawn with the width of sample 1, and the rendered width does not
    vary along the path. *)
Theorem stroke_paints_one_width_on_dot_image :
  exists pg',
    renderSpiral reference_platform default_params (Some dot_image) fresh_page
    = Ok pg' /\
    (2 <= passes default_params)%nat /\
    path (context (canvas pg')) = spiral_path default_params (passes default_params) /\
    sample_width reference_platform default_params dot_data 1 = Some 0.6 /\
    sample_width reference_platform default_params dot_data
      (passes default_params - 1) = Some 4.2 /\
    rendered_segments (context (canvas pg'))
    = map (fun i => (spiral_segment default_params i, 4.2))
        (seq 1 (passes default_params - 1)) /\
    hd_error (rendered_segments (context (canvas pg')))
    = Some (spiral_segment default_params 1, 4.2).
Proof.
  exists (rendered_page reference_platform default_params dot_image).
  split; [apply renderSpiral_ok, default_params_drawable|].
  split; [exact default_passes|].
  unfold rendered_page. cbn [canvas context resolution default_params].
  fold dot_data.
  split; [reflexivity|].
  split; [exact default_width_1|]. split; [exact default_width_last|].
  rewrite rendered_ctx_segments, default_lineWidth_at_stroke.
  split; [reflexivity|].
  pose proof default_passes as Hn.
  destruct (passes default_params) as [|[|m]]; [lia | lia | reflexivity].
Qed.

(* ================================================================== *)
(** * Part II, continued. Further properties                            *)
(* ================================================================== *)

(** ** The number of passes of the loop *)

Lemma walk_theta (P : Platform) (p : Params) (data : list Z) (n : nat)
    (st : LoopState) :
  theta (walk P p data n st) = theta st + INR n * dTheta.
Proof.
  induction n as [|n IH].
  - simpl. lra.
  - rewrite walk_succ, loop_body_theta, IH, S_INR. lra.
Qed.

(** A budget that suffices still suffices when it is raised. *)
Lemma spiral_loop_more_fuel (P : Platform) (p : Params) (data : list Z)
    (n : nat) :
  forall st r, spiral_loop P p data n st = Ok r ->
    forall k, spiral_loop P p data (n + k) st = Ok r.
Proof.
  induction n as [|n IH]; intros st r Hr k.
  - simpl in Hr.
    destruct (Rlt_dec (theta st) (maxTheta p)) as [H|H]; [discriminate|].
    destruct k; simpl; destruct (Rlt_dec (theta st) (maxTheta p));
      try contradiction; exact Hr.
  - cbn [spiral_loop Nat.add] in *.
    destruct (Rlt_dec (theta st) (maxTheta p)) as [H|H]; [|exact Hr].
    now apply IH.
Qed.

(** A budget below the number of passes runs out. *)
Lemma spiral_loop_short (P : Platform) (p : Params) (data : list Z) (n : nat) :
  forall st,
    (forall j, (j <= n)%nat -> theta st + INR j * dTheta < maxTheta p) ->
    spiral_loop P p data n st = OutOfFuel.
Proof.
  induction n as [|n IH]; intros st Hlt.
  - simpl. specialize (Hlt 0%nat (le_n 0)). simpl in Hlt.
    destruct (Rlt_dec (theta st) (maxTheta p)) as [H|H]; [reflexivity|lra].
  - cbn [spiral_loop].
    pose proof (Hlt 0%nat ltac:(lia)) as H0. simpl in H0.
    destruct (Rlt_dec (theta st) (maxTheta p)) as [H|H]; [|lra].
    apply IH. intros j Hj. rewrite loop_body_theta.
    specialize (Hlt (S j) ltac:(lia)). rewrite S_INR in Hlt. lra.
Qed.

(** X1. For a non-zero line spacing the loop started at [theta = 0] stops.
    There is a number of passes [n] such that every budget of at least [n]
    passes gives the state after [n] passes and every smaller budget runs
    out. Each of the [n] passes is made at a [theta] below [maxTheta], each
    pass adds [dTheta], and the [theta] the loop stops at is the first that
    is not below [maxTheta]; no pass is made exactly when
    [maxTheta <= 0]. *)
Theorem loop_stops_at_first_theta_past_maxTheta (P : Platform) (p : Params)
    (data : list Z) (c0 : Ctx) :
  lineSpacing p <> 0 ->
  let st0 := mkLoop 0 0 0 true None c0 in
  exists n : nat,
    (forall fuel, (n <= fuel)%nat ->
       spiral_loop P p data fuel st0 = Ok (walk P p data n st0)) /\
    (forall fuel, (fuel < n)%nat -> spiral_loop P p data fuel st0 = OutOfFuel) /\
    (forall k, (k < n)%nat -> theta (walk P p data k st0) < maxTheta p) /\
    maxTheta p <= theta (walk P p data n st0) /\
    (forall k,
       theta (walk P p data (S k) st0) = theta (walk P p data k st0) + dTheta) /\
    (n = 0%nat <-> maxTheta p <= 0).
Proof.
  intros _ st0. exists (passes p).
  assert (Htheta : forall k, theta (walk P p data k st0) = INR k * dTheta).
  { intros k. rewrite walk_theta. simpl. lra. }
  split; [|split; [|split; [|split; [|split]]]].
  - intros fuel Hle.
    replace fuel with (passes p + (fuel - passes p))%nat by lia.
    apply spiral_loop_more_fuel. now apply spiral_loop_terminates.
  - intros fuel Hlt. apply spiral_loop_short. intros j Hj.
    simpl. rewrite Rplus_0_l. apply passes_below. lia.
  - intros k Hk. rewrite Htheta. now apply passes_below.
  - rewrite Htheta. pose proof (passes_reached p). lra.
  - intros k. now rewrite walk_succ, loop_body_theta.
  - split.
    + intros H0. pose proof (passes_reached p) as Hr. rewrite H0 in Hr.
      simpl in Hr. lra.
    + apply passes_zero.
Qed.

(** ** The geometry of the walk *)

(** The point of sample [i] is the point of the curve at its angle, and it
    is what a pass leaves in [lastX] and [lastY]. *)
Lemma sample_point_spiral_xy (p : Params) (i : nat) :
  sample_point p i = spiral_xy p (sample_theta i).
Proof. reflexivity. Qed.

Lemma loop_body_last (P : Platform) (p : Params) (data : list Z) (st : LoopState) :
  (lastX (loop_body P p data st), lastY (loop_body P p data st))
  = spiral_xy p (theta st).
Proof.
  rewrite loop_body_width. cbv zeta. unfold spiral_xy.
  destruct (first st); reflexivity.
Qed.

(** X2. One full turn further the curve is on the same ray from the centre,
    [lineSpacing] further out: successive arms are [lineSpacing] apart, and
    the radius at [theta] is [lineSpacing * theta / (2 PI)]. *)
Theorem arms_are_lineSpacing_apart (P : Platform) (p : Params) (data : list Z)
    (st : LoopState) (t : R) :
  spiral_xy p (t + 2 * PI)
  = (fst (spiral_xy p t) + lineSpacing p * cos t,
     snd (spiral_xy p t) + lineSpacing p * sin t) /\
  b p * (t + 2 * PI) - b p * t = lineSpacing p /\
  (fst (spiral_xy p t))² + (snd (spiral_xy p t))² = (lineSpacing p * t / (2 * PI))² /\
  (lastX (loop_body P p data st), lastY (loop_body P p data st))
  = spiral_xy p (theta st).
Proof.
  pose proof PI_RGT_0 as HPI.
  assert (Hb : b p * (2 * PI) = lineSpacing p).
  { unfold b. field. lra. }
  split; [|split; [|split]].
  - unfold spiral_xy. cbv zeta. cbn [fst snd].
    rewrite cos_plus, sin_plus, cos_2PI, sin_2PI.
    f_equal; nra.
  - lra.
  - unfold spiral_xy. cbv zeta. cbn [fst snd]. unfold Rsqr.
    pose proof (sin2_cos2 t) as H. unfold Rsqr in H.
    replace (lineSpacing p * t / (2 * PI)) with (b p * t)
      by (unfold b; field; lra).
    nra.
  - apply loop_body_last.
Qed.

Lemma abs_cos_le (r t : R) : 0 <= r -> - r <= r * cos t <= r.
Proof. intros Hr. pose proof (COS_bound t) as [H1 H2]. split; nra. Qed.

Lemma abs_sin_le (r t : R) : 0 <= r -> - r <= r * sin t <= r.
Proof. intros Hr. pose proof (SIN_bound t) as [H1 H2]. split; nra. Qed.

Lemma sample_radius_bounds (p : Params) (i : nat) :
  0 < lineSpacing p -> (i < passes p)%nat ->
  0 <= b p * sample_theta i < maxR p.
Proof.
  intros Hls Hi. split.
  - apply Rmult_le_pos; [left; now apply b_pos|].
    unfold sample_theta. apply Rmult_le_pos; [apply pos_INR|].
    left. apply dTheta_pos.
  - apply radius_below_maxR; [exact Hls|]. now apply passes_below.
Qed.

(** Flooring a coordinate of the canvas needs no clamp. *)
Lemma floor_then_clamp_inside (size : Z) (v : R) :
  0 <= v < IZR size -> floor_then_clamp size v = Zfloor v.
Proof.
  intros [H0 H1]. unfold floor_then_clamp.
  assert (0 <= Zfloor v)%Z by (apply Zfloor_lub; simpl; exact H0).
  assert (Zfloor v < size)%Z.
  { apply lt_IZR. eapply Rle_lt_trans; [apply Zfloor_bound | exact H1]. }
  lia.
Qed.

(** X3. For a positive line spacing and a non-negative [maxWidth], every
    point the loop samples lies on the canvas, at least [1.5 * maxWidth]
    from each of its edges: the clamp of [sample] never moves a coordinate
    of the walk, and the pixel read is the one the point falls in. *)
Theorem samples_stay_on_canvas (p : Params) (i : nat) :
  0 < lineSpacing p -> 0 <= maxWidth p -> (i < passes p)%nat ->
  let size := IZR (resolution p) in
  let x := fst (canvas_point p i) in
  let y := snd (canvas_point p i) in
  maxWidth p * 1.5 < x < size - maxWidth p * 1.5 /\
  maxWidth p * 1.5 < y < size - maxWidth p * 1.5 /\
  sample_pixel (resolution p) x y = (Zfloor x, Zfloor y) /\
  (0 <= Zfloor x <= resolution p - 1)%Z /\
  (0 <= Zfloor y <= resolution p - 1)%Z.
Proof.
  intros Hls Hmw Hi size x y.
  destruct (sample_radius_bounds p i Hls Hi) as [Hr0 Hr1].
  pose proof (abs_cos_le _ (sample_theta i) Hr0) as Hc.
  pose proof (abs_sin_le _ (sample_theta i) Hr0) as Hs.
  assert (Hx : maxWidth p * 1.5 < x < size - maxWidth p * 1.5).
  { unfold x, size, canvas_point, sample_point, cx. cbn [fst snd].
    unfold maxR in Hr1. lra. }
  assert (Hy : maxWidth p * 1.5 < y < size - maxWidth p * 1.5).
  { unfold y, size, canvas_point, sample_point, cy. cbn [fst snd].
    unfold maxR in Hr1. lra. }
  assert (Hsize : (1 <= resolution p)%Z).
  { assert (0 < IZR (resolution p)) by (unfold size in Hx; lra).
    assert (0 < resolution p)%Z by (apply lt_IZR; exact H). lia. }
  split; [exact Hx|]. split; [exact Hy|].
  assert (Ex : floor_then_clamp (resolution p) x = Zfloor x)
    by (apply floor_then_clamp_inside; unfold size in Hx; lra).
  assert (Ey : floor_then_clamp (resolution p) y = Zfloor y)
    by (apply floor_then_clamp_inside; unfold size in Hy; lra).
  split.
  - unfold sample_pixel. rewrite !floor_clamp_commute by exact Hsize.
    now rewrite Ex, Ey.
  - destruct (sample_pixel_in_range (resolution p) x y Hsize) as [Px Py].
    unfold sample_pixel in Px, Py. cbn [fst snd] in Px, Py.
    rewrite !floor_clamp_commute in Px, Py by exact Hsize.
    rewrite Ex in Px. rewrite Ey in Py. split; assumption.
Qed.

(** ** What a render paints, and when it throws *)

Lemma spiral_path_length (p : Params) (n : nat) : length (spiral_path p n) = n.
Proof.
  destruct n as [|m]; [reflexivity|].
  cbn [spiral_path length]. now rewrite length_map, length_seq.
Qed.

(** The first sample is the centre of the canvas. *)
Lemma canvas_point_0 (p : Params) : canvas_point p 0 = (cx p, cy p).
Proof.
  unfold canvas_point, sample_point, sample_theta. cbn [fst snd INR].
  f_equal; ring.
Qed.

(** A non-empty spiral path is a [MoveTo] to the centre followed by
    [LineTo]s. *)
Lemma spiral_path_shape (p : Params) (n : nat) :
  (0 < n)%nat ->
  exists rest,
    spiral_path p n = MoveTo (cx p) (cy p) :: rest /\
    forall c, In c rest -> exists x y, c = LineTo x y.
Proof.
  intros Hn. destruct n as [|m]; [lia|].
  cbn [spiral_path]. rewrite canvas_point_0. cbn [fst snd].
  eexists. split; [reflexivity|].
  intros c Hc. apply in_map_iff in Hc. destruct Hc as (i & <- & _).
  eexists _, _. reflexivity.
Qed.

(** X4. For a non-zero line spacing, a render of a drawable configuration
    leaves the context as a reset leaves it, with an empty stack of saved
    states: the clip and the translation do not outlive it. It paints the
    white background and then one stroke. The stroked path is empty exactly
    when [maxTheta <= 0]; otherwise it is one [MoveTo] to the centre of the
    canvas followed by [LineTo]s only, a single polyline with one segment
    fewer than it has points. The stroke is drawn round-capped in black,
    translated to the centre, under the circular clip exactly when
    [cropToCircle] is set. *)
Theorem render_paints_background_and_one_stroke (P : Platform) (p : Params)
    (img : Image) (pg : Page) :
  drawable p -> lineSpacing p <> 0 ->
  exists pg' ds,
    renderSpiral P p (Some img) pg = Ok pg' /\
    cwidth (canvas pg') = resolution p /\ cheight (canvas pg') = resolution p /\
    state (context (canvas pg')) = default_state /\
    saved (context (canvas pg')) = [] /\
    painted (context (canvas pg'))
    = [background p; Stroke (path (context (canvas pg'))) ds] /\
    (path (context (canvas pg')) = [] <-> maxTheta p <= 0) /\
    (0 < maxTheta p ->
     exists rest,
       path (context (canvas pg')) = MoveTo (cx p) (cy p) :: rest /\
       forall c, In c rest -> exists x y, c = LineTo x y) /\
    length (rendered_segments (context (canvas pg')))
    = (length (path (context (canvas pg'))) - 1)%nat /\
    lineCap ds = "round"%string /\ lineJoin ds = "round"%string /\
    strokeStyle ds = "#000"%string /\ origin ds = (cx p, cy p) /\
    clips ds
    = if cropToCircle p
      then [[Arc (cx p) (cy p) (clip_radius p) 0 (PI * 2)]] else [].
Proof.
  intros Hd _.
  exists (rendered_page P p img),
         (stroke_state P p (getImageData (prepare P img (resolution p)) (resolution p))).
  split; [now apply renderSpiral_ok|].
  unfold rendered_page. cbn [canvas context cwidth cheight].
  split; [reflexivity|]. split; [reflexivity|].
  split; [reflexivity|]. split; [reflexivity|]. split; [reflexivity|].
  assert (Hpos : 0 < maxTheta p -> (0 < passes p)%nat).
  { intros Hm. pose proof (passes_reached p) as Hr.
    destruct (passes p); [simpl in Hr; lra | lia]. }
  split; [|split; [|split]].
  - unfold rendered_ctx. cbn [path]. split.
    + intros Hnil. destruct (Rle_dec (maxTheta p) 0) as [Hle|Hgt]; [exact Hle|].
      pose proof (spiral_path_length p (passes p)) as Hl.
      rewrite Hnil in Hl. simpl in Hl.
      assert (0 < passes p)%nat by (apply Hpos; lra). lia.
    + intros Hle. now rewrite (passes_zero p Hle).
  - intros Hm. unfold rendered_ctx. cbn [path].
    apply spiral_path_shape, Hpos, Hm.
  - rewrite rendered_ctx_segments, length_map, length_seq.
    unfold rendered_ctx. cbn [path]. now rewrite spiral_path_length.
  - repeat (split; [reflexivity|]).
    unfold stroke_state, clip_region. cbn [clips]. reflexivity.
Qed.

(** The two ways in which the canvas calls of a render throw: a zero-sized
    [getImageData], and an [arc] of negative radius for the clip. *)
Lemma renderSpiral_IndexSizeError (P : Platform) (p : Params)
    (img : Image) (pg : Page) :
  (0 <= resolution p)%Z ->
  (resolution p = 0%Z \/
   (cropToCircle p = true /\ IZR (resolution p) / 2 < maxWidth p)) ->
  renderSpiral P p (Some img) pg = Throw "IndexSizeError".
Proof.
  intros Hres Hbad.
  unfold renderSpiral. cbv zeta. unfold getImageData_checked.
  destruct Hbad as [H0 | [Hcrop Hrad]].
  - rewrite H0. reflexivity.
  - destruct (resolution p =? 0)%Z; [reflexivity|]. cbn [bind].
    rewrite Hcrop. unfold arc.
    destruct (Rlt_dec (IZR (resolution p) / 2 - maxWidth p) 0) as [_|H];
      [reflexivity | lra].
Qed.

(** X5. A render throws an [IndexSizeError], and draws no spiral, when the
    resolution is 0 or when [cropToCircle] is set and [maxWidth] exceeds
    half the resolution (the clipping circle would have a negative
    radius); with the same parameters and [cropToCircle] off the second
    configuration renders. *)
Theorem render_throws_on_negative_clip_radius (P : Platform) (p : Params)
    (img : Image) (pg : Page) :
  (0 <= resolution p)%Z ->
  (resolution p = 0%Z \/
   (cropToCircle p = true /\ IZR (resolution p) / 2 < maxWidth p)) ->
  renderSpiral P p (Some img) pg = Throw "IndexSizeError" /\
  ((1 <= resolution p)%Z ->
   exists pg',
     renderSpiral P
       (mkParams (turns p) (lineSpacing p) (minWidth p) (maxWidth p) (gamma p)
          (invert p) false (resolution p))
       (Some img) pg = Ok pg').
Proof.
  intros Hres Hbad. split.
  - apply renderSpiral_IndexSizeError; assumption.
  - intros Hsize. eexists. apply renderSpiral_ok.
    split; [exact Hsize | intros H; discriminate H].
Qed.

(** The width that the last of at least two samples asks for is the one the
    context has when the loop ends, if the setter accepts it. *)
Lemma lineWidth_after_last (P : Platform) (p : Params) (data : list Z)
    (n : nat) (w : R) :
  (2 <= n)%nat -> sample_width P p data (n - 1) = Some w -> 0 < w ->
  lineWidth_after P p data n = w.
Proof.
  intros Hn Hw Hpos. destruct n as [|[|m]]; [lia | lia |].
  replace (S (S m) - 1)%nat with (S m) in Hw by lia.
  cbn [lineWidth_after]. rewrite Hw. unfold accept_lineWidth.
  destruct (Rlt_dec 0 w); [reflexivity | contradiction].
Qed.

(** X6. With [0 < minWidth <= maxWidth] and at least two samples, the one
    stroke of a render paints every segment with the width computed for the
    last sample, whatever the earlier samples asked for; that width lies
    between [minWidth] and [maxWidth]. *)
Theorem stroke_is_painted_with_last_width (P : Platform) (p : Params)
    (img : Image) (pg : Page) :
  drawable p -> 0 < minWidth p -> minWidth p <= maxWidth p ->
  (2 <= passes p)%nat ->
  let data := getImageData (prepare P img (resolution p)) (resolution p) in
  exists pg' w,
    renderSpiral P p (Some img) pg = Ok pg' /\
    sample_width P p data (passes p - 1) = Some w /\
    minWidth p <= w <= maxWidth p /\
    rendered_segments (context (canvas pg'))
    = map (fun i => (spiral_segment p i, w)) (seq 1 (passes p - 1)) /\
    (forall s, In s (rendered_segments (context (canvas pg'))) -> snd s = w).
Proof.
  intros Hd Hmin Hle Hn data.
  destruct Hd as [Hsize Hrad].
  destruct (sample_width_in_range P p (prepare P img (resolution p))
              (passes p - 1) Hsize Hle) as (w & Hw & Hrange).
  fold data in Hw.
  exists (rendered_page P p img), w.
  split; [apply renderSpiral_ok; split; assumption|].
  split; [exact Hw|]. split; [exact Hrange|].
  unfold rendered_page. cbn [canvas context]. fold data.
  rewrite rendered_ctx_segments.
  rewrite (lineWidth_after_last P p data (passes p) w Hn Hw) by lra.
  split; [reflexivity|].
  intros s Hs. apply in_map_iff in Hs. destruct Hs as (i & <- & _). reflexivity.
Qed.

(** X7. With [cropToCircle] set, a positive line spacing and a non-negative
    [maxWidth], every point of the stroked path lies inside the clipping
    circle, more than [maxWidth / 2] from its edge: the margin
    [1.5 * maxWidth] of [maxR] keeps the centre line of the widest stroke
    clear of the clip of radius [resolution / 2 - maxWidth]. *)
Theorem path_stays_inside_clip (p : Params) (i : nat) :
  cropToCircle p = true ->
  0 < lineSpacing p -> 0 <= maxWidth p -> (i < passes p)%nat ->
  let depth := clip_radius p - maxWidth p / 2 in
  clip_region p = [[Arc (cx p) (cy p) (clip_radius p) 0 (PI * 2)]] /\
  0 < depth /\
  dist2 (canvas_point p i) (cx p, cy p) < depth².
Proof.
  intros Hcrop Hls Hmw Hi depth.
  destruct (sample_radius_bounds p i Hls Hi) as [Hr0 Hr1].
  assert (Hdepth : depth = maxR p).
  { unfold depth, clip_radius, maxR. lra. }
  split; [unfold clip_region; rewrite Hcrop; reflexivity|].
  split; [lra|].
  unfold dist2, canvas_point. cbn [fst snd].
  replace (fst (sample_point p i) + cx p - cx p) with (fst (sample_point p i)) by ring.
  replace (snd (sample_point p i) + cy p - cy p) with (snd (sample_point p i)) by ring.
  rewrite sample_point_radius, Hdepth.
  apply Rsqr_incrst_1; lra.
Qed.

(** The square of the chord between two points of polar coordinates
    [(r1, t)] and [(r2, t + d)]. *)
Lemma chord_square (r1 r2 t d : R) :
  (r2 * cos (t + d) - r1 * cos t)² + (r2 * sin (t + d) - r1 * sin t)²
  = (r2 - r1)² + 2 * r1 * r2 * (1 - cos d).
Proof.
  rewrite cos_plus, sin_plus. unfold Rsqr.
  pose proof (sin2_cos2 t) as Ht. pose proof (sin2_cos2 d) as Hd.
  unfold Rsqr in Ht, Hd.
  replace ((r2 * (cos t * cos d - sin t * sin d) - r1 * cos t)
           * (r2 * (cos t * cos d - sin t * sin d) - r1 * cos t)
           + (r2 * (sin t * cos d + cos t * sin d) - r1 * sin t)
             * (r2 * (sin t * cos d + cos t * sin d) - r1 * sin t))
    with (r2 * r2 * ((sin t * sin t + cos t * cos t)
                     * (sin d * sin d + cos d * cos d))
          - 2 * r1 * r2 * cos d * (sin t * sin t + cos t * cos t)
          + r1 * r1 * (sin t * sin t + cos t * cos t)) by ring.
  rewrite Ht, Hd. ring.
Qed.

(** X8. Two consecutive samples are close: the square of the length of the
    segment between them is at most
    [dTheta² * (b² + 2 * r * r')], with [r] and [r'] their radii, hence
    below [dTheta² * (b² + 2 * maxR²)]; the step is fixed in angle, so the
    segments grow with the radius. *)
Theorem consecutive_samples_are_close (p : Params) (i : nat) :
  0 < lineSpacing p -> (S i < passes p)%nat ->
  let r1 := b p * sample_theta i in
  let r2 := b p * sample_theta (S i) in
  r2 - r1 = b p * dTheta /\
  dist2 (sample_point p (S i)) (sample_point p i)
  = (b p * dTheta)² + 2 * r1 * r2 * (1 - cos dTheta) /\
  dist2 (sample_point p (S i)) (sample_point p i)
  <= dTheta² * ((b p)² + 2 * r1 * r2) /\
  dist2 (sample_point p (S i)) (sample_point p i)
  < dTheta² * ((b p)² + 2 * (maxR p)²) /\
  dist2 (canvas_point p (S i)) (canvas_point p i)
  = dist2 (sample_point p (S i)) (sample_point p i).
Proof.
  intros Hls Hi r1 r2.
  destruct (sample_radius_bounds p i Hls ltac:(lia)) as [Ha0 Ha1].
  destruct (sample_radius_bounds p (S i) Hls Hi) as [Hb0 Hb1].
  fold r1 in Ha0, Ha1. fold r2 in Hb0, Hb1.
  assert (Hstep : sample_theta (S i) = sample_theta i + dTheta).
  { unfold sample_theta. rewrite S_INR. ring. }
  assert (Hdr : r2 - r1 = b p * dTheta).
  { unfold r1, r2. rewrite Hstep. ring. }
  assert (Hchord : dist2 (sample_point p (S i)) (sample_point p i)
                   = (b p * dTheta)² + 2 * r1 * r2 * (1 - cos dTheta)).
  { unfold dist2, sample_point. cbn [fst snd]. fold r1 r2.
    rewrite Hstep, chord_square, Hdr. reflexivity. }
  pose proof (cos_small dTheta dTheta_pos ltac:(unfold dTheta; lra)) as [Hc0 Hc1].
  assert (Hprod : 0 <= r1 * r2) by (apply Rmult_le_pos; assumption).
  assert (Hle : dist2 (sample_point p (S i)) (sample_point p i)
                <= dTheta² * ((b p)² + 2 * r1 * r2)).
  { rewrite Hchord. unfold Rsqr in *. nra. }
  split; [exact Hdr|]. split; [exact Hchord|]. split; [exact Hle|].
  split.
  - eapply Rle_lt_trans; [exact Hle|].
    pose proof dTheta_pos as Hd.
    assert (Hp : r1 * r2 < maxR p * maxR p) by nra.
    apply Rmult_lt_compat_l; [unfold Rsqr; nra|]. unfold Rsqr. lra.
  - unfold dist2, canvas_point. cbn [fst snd]. f_equal; f_equal; ring.
Qed.

(** ** The layout of the working buffer *)

Lemma touches_spec (dx dy dw dh : R) (px py : Z) :
  touches dx dy dw dh px py = true <->
  dx < IZR px + 1 /\ IZR px < dx + dw /\ dy < IZR py + 1 /\ IZR py < dy + dh.
Proof.
  unfold touches.
  repeat match goal with
  | |- context [Rlt_dec ?a ?c] => destruct (Rlt_dec a c)
  end; split; try discriminate; try tauto; intros; reflexivity.
Qed.

(** X9. An image at least as wide as high is drawn over the full width of
    the working buffer ([dx = 0], [drawW = size]) with its height scaled by
    the same factor; the pixels it leaves untouched are exactly those of
    the rows above [dy] and below [dy + drawH], two bars of equal height. A
    square image leaves no pixel untouched. *)
Theorem landscape_image_leaves_two_bars (img : Image) (size : Z) :
  (1 <= size)%Z -> (0 < height img)%Z -> (height img <= width img)%Z ->
  scale img size = IZR size / IZR (width img) /\
  drawW img size = IZR size /\ dx img size = 0 /\
  drawH img size = IZR size * IZR (height img) / IZR (width img) /\
  0 <= dy img size /\
  IZR size - (dy img size + drawH img size) = dy img size /\
  (forall px py, (0 <= px <= size - 1)%Z -> (0 <= py <= size - 1)%Z ->
     (letterbox img size px py <->
      IZR py + 1 <= dy img size \/ dy img size + drawH img size <= IZR py)) /\
  (width img = height img ->
   forall px py, ~ letterbox img size px py).
Proof.
  intros Hs Hh Hhw.
  assert (Hw : (0 < width img)%Z) by lia.
  apply IZR_le in Hs. apply IZR_lt in Hh, Hw. apply IZR_le in Hhw.
  assert (Hscale : scale img size = IZR size / IZR (width img)).
  { unfold scale, Math_min. apply Rmin_left.
    unfold Rdiv. apply Rmult_le_compat_l; [lra|].
    apply Rinv_le_contravar; lra. }
  assert (HW : drawW img size = IZR size).
  { unfold drawW. rewrite Hscale. field. lra. }
  assert (HH : drawH img size = IZR size * IZR (height img) / IZR (width img)).
  { unfold drawH. rewrite Hscale. field. lra. }
  assert (Hdx : dx img size = 0) by (unfold dx; rewrite HW; lra).
  assert (HHle : drawH img size <= IZR size).
  { rewrite HH. apply Rmult_le_reg_r with (IZR (width img)); [lra|].
    unfold Rdiv. rewrite Rmult_assoc, Rinv_l by lra. nra. }
  assert (Hbox : forall px py, (0 <= px <= size - 1)%Z -> (0 <= py <= size - 1)%Z ->
     (letterbox img size px py <->
      IZR py + 1 <= dy img size \/ dy img size + drawH img size <= IZR py)).
  { intros px py Hpx Hpy.
    assert (Hx0 : 0 <= IZR px) by (apply (IZR_le 0); lia).
    assert (Hx1 : IZR px < IZR size) by (apply IZR_lt; lia).
    unfold letterbox. rewrite Hdx, HW.
    split.
    - intros (_ & _ & Ht).
      destruct (Rle_dec (IZR py + 1) (dy img size)) as [H1|H1]; [now left|].
      destruct (Rle_dec (dy img size + drawH img size) (IZR py)) as [H2|H2];
        [now right|].
      exfalso.
      assert (Htrue : touches 0 (dy img size) (IZR size) (drawH img size) px py = true)
        by (apply touches_spec; lra).
      rewrite Htrue in Ht. discriminate.
    - intros Hbar. split; [exact Hpx|]. split; [exact Hpy|].
      destruct (touches 0 (dy img size) (IZR size) (drawH img size) px py) eqn:E;
        [|reflexivity].
      apply touches_spec in E. lra. }
  split; [exact Hscale|]. split; [exact HW|]. split; [exact Hdx|].
  split; [exact HH|]. split; [unfold dy; lra|]. split; [unfold dy; lra|].
  split; [exact Hbox|].
  intros Hsq px py Hl. pose proof Hl as (Hpx & Hpy & _).
  apply Hbox in Hl; [|exact Hpx|exact Hpy].
  assert (HHs : drawH img size = IZR size).
  { rewrite HH, Hsq. field. rewrite <- Hsq. lra. }
  assert (Hdy : dy img size = 0) by (unfold dy; rewrite HHs; lra).
  assert (Hy0 : 0 <= IZR py) by (apply (IZR_le 0); lia).
  assert (Hy1 : IZR py < IZR size) by (apply IZR_lt; lia).
  rewrite Hdy, HHs in Hl. lra.
Qed.

(** ** More on the sampler *)

(** X10. [sample] reads the nearest pixel and nothing else: a point samples
    as the pixel whose column and row are the floors of its coordinates,
    brought back to the first or last column or row when they fall outside
    the buffer, so points beyond an edge sample as the pixel on that
    edge. *)
Theorem sample_reads_nearest_pixel (P : Platform) (size : Z) (data : list Z)
    (inv : bool) (g : R) (x y : R) :
  (1 <= size)%Z ->
  sample P size data inv g x y
  = sample P size data inv g (IZR (floor_then_clamp size x))
      (IZR (floor_then_clamp size y)) /\
  (x < 0 -> forall y', sample P size data inv g x y' = sample P size data inv g 0 y') /\
  (IZR size <= x -> forall y',
     sample P size data inv g x y' = sample P size data inv g (IZR size - 1) y') /\
  (forall x' y', Zfloor x' = Zfloor x -> Zfloor y' = Zfloor y ->
     sample P size data inv g x' y' = sample P size data inv g x y).
Proof.
  intros Hsize.
  assert (Hsame : forall x1 y1 x2 y2,
    floor_then_clamp size x1 = floor_then_clamp size x2 ->
    floor_then_clamp size y1 = floor_then_clamp size y2 ->
    sample P size data inv g x1 y1 = sample P size data inv g x2 y2).
  { intros x1 y1 x2 y2 Hx Hy. unfold sample. cbv zeta.
    rewrite !floor_clamp_commute by exact Hsize. now rewrite Hx, Hy. }
  assert (Hidem : forall v, floor_then_clamp size (IZR (floor_then_clamp size v))
                            = floor_then_clamp size v).
  { intros v. unfold floor_then_clamp at 1. rewrite ZfloorZ.
    unfold floor_then_clamp. lia. }
  split; [|split; [|split]].
  - apply Hsame; symmetry; apply Hidem.
  - intros Hx y'. apply Hsame; [|reflexivity].
    unfold floor_then_clamp. change 0 with (IZR 0). rewrite ZfloorZ.
    assert (Zfloor x <= 0)%Z.
    { rewrite <- (ZfloorZ 0). apply Zfloor_le. simpl. lra. }
    lia.
  - intros Hx y'. apply Hsame; [|reflexivity].
    unfold floor_then_clamp. rewrite <- minus_IZR, ZfloorZ.
    assert (size <= Zfloor x)%Z by (apply Zfloor_lub; exact Hx).
    lia.
  - intros x' y' Hx Hy. apply Hsame; unfold floor_then_clamp; congruence.
Qed.

(** X11. With [gamma = 1], on a byte buffer and a platform whose
    [Math.pow(v, 1)] is [v] on the unit interval, inverting turns a sample
    into its complement: the sample with [invert] set is one minus the
    sample without. *)
Theorem inverted_sample_is_complement (P : Platform) (size : Z)
    (data : list Z) (x y : R) :
  (forall v, 0 <= v <= 1 -> Math_pow P v 1 = v) ->
  (1 <= size)%Z -> length data = Z.to_nat (size * size * 4) -> bytes data ->
  exists lum,
    sample P size data false 1 x y = Some lum /\
    sample P size data true 1 x y = Some (1 - lum) /\
    0 <= lum <= 1.
Proof.
  intros Hpow Hsize Hlen Hb.
  destruct (sample_pixel_in_range size x y Hsize) as [Hx Hy].
  destruct (pixel_rgb_defined size data (sample_pixel size x y) Hlen Hx Hy)
    as [rgb Hrgb].
  pose proof (pixel_rgb_bytes _ _ _ _ Hb Hrgb) as Hr.
  exists (brightness rgb / 255).
  rewrite (sample_of_pixel P size data false 1 x y rgb Hrgb).
  rewrite (sample_of_pixel P size data true 1 x y rgb Hrgb).
  rewrite !Hpow by lra. rewrite !clamp_inside by lra.
  split; [reflexivity|]. split; [reflexivity|]. lra.
Qed.

(** ** The handlers *)

Section HandlerProperties.
Variable Blob : Type.
Variable createObjectURL : App.File + Blob -> string.
Variable toBlob : Canvas -> option Blob.

(** X12. [onFile] followed by the end of the load it starts. A file whose
    type does not start with ["image/"], or that fails to decode, changes
    nothing but the error message, which it sets: the current image, its
    URL, the controls, the busy flag and the download link are kept. A file
    that decodes becomes the image, with its object URL, and the error is
    cleared. No file at all only clears the error. *)
Theorem onFile_replaces_image_only_on_success (f : App.File) (st : App.State) :
  let st' := App.settle (snd (App.onFile Blob createObjectURL (Some f) st))
               (fst (App.onFile Blob createObjectURL (Some f) st)) in
  App.busy st' = App.busy st /\
  App.downloadURL st' = App.downloadURL st /\
  App.params st' = App.params st /\
  (App.is_image (App.type f) = false ->
   App.img st' = App.img st /\ App.imgURL st' = App.imgURL st /\
   App.error st' = "Please choose an image file."%string) /\
  (App.is_image (App.type f) = true -> App.decoded f = None ->
   App.img st' = App.img st /\ App.imgURL st' = App.imgURL st /\
   App.error st' = "Couldn't load that image. Try another file."%string) /\
  (forall im, App.is_image (App.type f) = true -> App.decoded f = Some im ->
   App.img st' = Some im /\
   App.imgURL st' = createObjectURL (inl f) /\
   App.error st' = ""%string) /\
  App.onFile Blob createObjectURL None st = (App.setError "" st, None).
Proof.
  cbv zeta. unfold App.onFile.
  destruct (App.is_image (App.type f)) eqn:Ety; cbn [negb fst snd App.settle].
  - destruct (App.decoded f) as [im|] eqn:Edec;
      repeat split; try reflexivity; try discriminate; intros;
      try congruence.
    injection H0 as <-. reflexivity.
  - repeat split; try reflexivity; try discriminate; intros; discriminate.
Qed.

(** X13. [handlePaste] hands to [onFile] the first clipboard item whose
    type starts with ["image/"] and ignores every later one, even when the
    first yields no file; without such an item, or without a clipboard, the
    state is untouched, the error message included. [handleDrop] looks at
    the first dropped file only, whatever its type. *)
Theorem paste_takes_first_image_item (items : list App.Item) (st : App.State) :
  App.handlePaste Blob createObjectURL (Some items) st
  = match find (fun it => App.is_image (App.it_type it)) items with
    | Some it => App.onFile Blob createObjectURL (App.getAsFile it) st
    | None => (st, None)
    end /\
  App.handlePaste Blob createObjectURL None st = (st, None) /\
  (forall f rest,
     App.handleDrop Blob createObjectURL (Some (f :: rest)) st
     = App.onFile Blob createObjectURL (Some f) st) /\
  App.handleDrop Blob createObjectURL (Some []) st = (st, None) /\
  App.handleDrop Blob createObjectURL None st = (st, None).
Proof.
  split; [|repeat split].
  unfold App.handlePaste.
  induction items as [|it rest IH]; [reflexivity|].
  cbn [App.paste_loop find].
  destruct (App.is_image (App.it_type it)); [reflexivity | exact IH].
Qed.

(** X14. When the drawing throws, the exception leaves [renderSpiral]
    before [toBlob] is called: the busy flag set at its start stays set, the
    download link stays cleared and no error message is shown. *)
Theorem throwing_render_stays_busy (P : Platform) (st : App.State)
    (im : Image) (pg : Page) :
  App.img st = Some im ->
  (0 <= resolution (App.params st))%Z ->
  (resolution (App.params st) = 0%Z \/
   (cropToCircle (App.params st) = true /\
    IZR (resolution (App.params st)) / 2 < maxWidth (App.params st))) ->
  let st' := fst (App.render_and_encode Blob createObjectURL toBlob P st pg) in
  snd (App.render_and_encode Blob createObjectURL toBlob P st pg)
  = Throw "IndexSizeError" /\
  App.busy st' = true /\
  App.downloadURL st' = ""%string /\
  App.error st' = ""%string /\
  App.img st' = App.img st /\ App.params st' = App.params st.
Proof.
  intros Him Hres Hbad. cbv zeta.
  unfold App.render_and_encode, App.renderSpiral. rewrite Him.
  rewrite (renderSpiral_IndexSizeError P (App.params st) im pg Hres Hbad).
  cbn. rewrite Him. repeat split; reflexivity.
Qed.

(** A render of a drawable configuration reaches [toBlob], whose callback
    sees the state as the start of the render left it. *)
Lemma render_and_encode_drawable (P : Platform) (st : App.State)
    (im : Image) (pg : Page) :
  App.img st = Some im -> drawable (App.params st) ->
  App.render_and_encode Blob createObjectURL toBlob P st pg
  = (App.toBlob_callback Blob createObjectURL
       (toBlob (canvas (rendered_page P (App.params st) im)))
       (st |> App.setBusy true |> App.setError "" |> App.setDownloadURL ""),
     Ok (rendered_page P (App.params st) im)).
Proof.
  intros Him Hd.
  unfold App.render_and_encode, App.renderSpiral. rewrite Him.
  rewrite (renderSpiral_ok P (App.params st) im pg Hd). reflexivity.
Qed.

Lemma toBlob_callback_clears_busy (blob : option Blob) (st : App.State) :
  App.busy (App.toBlob_callback Blob createObjectURL blob st) = false.
Proof. destruct blob; reflexivity. Qed.

(** X15. A render of a drawable configuration that runs to the callback of
    [toBlob] ends with the busy flag cleared and with exactly one of the
    two outcomes published: the object URL of the blob as download link and
    no error, or, when the canvas gives no blob, the error message and no
    download link. Without an image the render changes nothing. *)
Theorem completed_render_publishes_link_or_error (P : Platform)
    (st : App.State) (im : Image) (pg : Page) :
  App.img st = Some im -> drawable (App.params st) ->
  let page := rendered_page P (App.params st) im in
  let st' := fst (App.render_and_encode Blob createObjectURL toBlob P st pg) in
  snd (App.render_and_encode Blob createObjectURL toBlob P st pg) = Ok page /\
  App.busy st' = false /\
  App.img st' = App.img st /\ App.params st' = App.params st /\
  match toBlob (canvas page) with
  | Some bl =>
      App.downloadURL st' = createObjectURL (inr bl) /\ App.error st' = ""%string
  | None =>
      App.downloadURL st' = ""%string /\
      App.error st' = "Failed to generate image blob."%string
  end /\
  (forall st0, App.img st0 = None ->
     App.render_and_encode Blob createObjectURL toBlob P st0 pg = (st0, Ok pg)).
Proof.
  intros Him Hd. cbv zeta.
  rewrite (render_and_encode_drawable P st im pg Him Hd).
  cbn [fst snd]. unfold App.toBlob_callback.
  split; [reflexivity|].
  destruct (toBlob (canvas (rendered_page P (App.params st) im))) as [bl|];
    cbn; repeat split; try reflexivity.
  all: intros st0 H0; unfold App.render_and_encode, App.renderSpiral;
    rewrite H0; reflexivity.
Qed.

(** X16. [reset] puts the eight controls back to their initial values and
    touches nothing else; it is idempotent, and the configuration it leaves
    always renders: whatever the controls were, and even after a render that
    threw and left the busy flag set, the render after a reset clears the
    flag. *)
Theorem reset_recovers_a_drawable_configuration (P : Platform)
    (st : App.State) (im : Image) (pg : Page) :
  App.img st = Some im ->
  let st1 := App.reset st in
  let st2 := fst (App.render_and_encode Blob createObjectURL toBlob P st1 pg) in
  App.params st1 = default_params /\
  App.img st1 = App.img st /\ App.imgURL st1 = App.imgURL st /\
  App.busy st1 = App.busy st /\ App.error st1 = App.error st /\
  App.downloadURL st1 = App.downloadURL st /\
  App.reset st1 = st1 /\
  drawable (App.params st1) /\
  snd (App.render_and_encode Blob createObjectURL toBlob P st1 pg)
  = Ok (rendered_page P default_params im) /\
  App.busy st2 = false.
Proof.
  intros Him. cbv zeta.
  assert (Him1 : App.img (App.reset st) = Some im) by exact Him.
  assert (Hd : drawable (App.params (App.reset st)))
    by exact default_params_drawable.
  rewrite (render_and_encode_drawable P (App.reset st) im pg Him1 Hd).
  cbn [fst snd]. rewrite toBlob_callback_clears_busy.
  repeat split; try reflexivity; apply Hd.
Qed.
End HandlerProperties.

(** ** The properties on concrete inputs *)

(** The loop of the default configuration stops. *)
Lemma loop_stops_witness :
  exists n : nat,
    spiral_loop reference_platform default_params [] n
      (mkLoop 0 0 0 true None default_ctx)
    = Ok (walk reference_platform default_params [] n
            (mkLoop 0 0 0 true None default_ctx)) /\
    n <> 0%nat.
Proof.
  assert (Hls : lineSpacing default_params <> 0) by (simpl; lra).
  pose proof (loop_stops_at_first_theta_past_maxTheta reference_platform
                default_params [] default_ctx Hls) as H.
  cbv zeta in H. destruct H as (n & Hok & _ & _ & _ & _ & Hz).
  exists n. split; [apply Hok, le_n|].
  intros H0. apply Hz in H0. pose proof default_params_maxTheta_pos. lra.
Defined.

(** The first sample of the default configuration is on the canvas. *)
Lemma samples_stay_on_canvas_witness :
  maxWidth default_params * 1.5 < fst (canvas_point default_params 0)
    < IZR (resolution default_params) - maxWidth default_params * 1.5.
Proof.
  pose proof default_passes as Hp.
  pose proof (samples_stay_on_canvas default_params 0
                ltac:(simpl; lra) ltac:(simpl; lra) ltac:(lia)) as H.
  cbv zeta in H. exact (proj1 H).
Defined.

(** The default render of the black image. *)
Lemma render_paints_witness :
  exists pg',
    renderSpiral reference_platform default_params (Some black_image) fresh_page
    = Ok pg' /\
    saved (context (canvas pg')) = [] /\
    length (rendered_segments (context (canvas pg')))
    = (length (path (context (canvas pg'))) - 1)%nat.
Proof.
  assert (Hls : lineSpacing default_params <> 0) by (simpl; lra).
  destruct (render_paints_background_and_one_stroke reference_platform
              default_params black_image fresh_page default_params_drawable Hls)
    as (pg' & ds & Hr & _ & _ & _ & Hs & _ & _ & _ & Hl & _).
  exists pg'. split; [exact Hr|]. split; [exact Hs | exact Hl].
Defined.

(** A stroke of width 2000 on a canvas of 2048 pixels, clip on. *)
Lemma render_throws_witness :
  renderSpiral reference_platform wide_stroke (Some black_image) fresh_page
  = Throw "IndexSizeError".
Proof.
  refine (proj1 (render_throws_on_negative_clip_radius reference_platform
                   wide_stroke black_image fresh_page _ _)).
  - simpl. lia.
  - right. split; [reflexivity | simpl; lra].
Defined.

(** The default render of the dot image. *)
Lemma stroke_last_width_witness :
  exists pg' w,
    renderSpiral reference_platform default_params (Some dot_image) fresh_page
    = Ok pg' /\
    minWidth default_params <= w <= maxWidth default_params /\
    (forall s, In s (rendered_segments (context (canvas pg'))) -> snd s = w).
Proof.
  pose proof (stroke_is_painted_with_last_width reference_platform
                default_params dot_image fresh_page default_params_drawable
                ltac:(simpl; lra) ltac:(simpl; lra) default_passes) as H.
  cbv zeta in H. destruct H as (pg' & w & Hr & _ & Hw & _ & Hall).
  exists pg', w. split; [exact Hr|]. split; [exact Hw | exact Hall].
Defined.

(** The first sample of the default configuration is inside the clip. *)
Lemma path_inside_clip_witness :
  dist2 (canvas_point default_params 0) (cx default_params, cy default_params)
  < (clip_radius default_params - maxWidth default_params / 2)².
Proof.
  pose proof default_passes as Hp.
  pose proof (path_stays_inside_clip default_params 0 eq_refl
                ltac:(simpl; lra) ltac:(simpl; lra) ltac:(lia)) as H.
  cbv zeta in H. exact (proj2 (proj2 H)).
Defined.

(** The first two samples of the default configuration. *)
Lemma consecutive_samples_witness :
  b default_params * sample_theta 1 - b default_params * sample_theta 0
  = b default_params * dTheta.
Proof.
  pose proof (consecutive_samples_are_close default_params 0
                ltac:(simpl; lra) default_passes) as H.
  cbv zeta in H. exact (proj1 H).
Defined.

(** The 4x2 image on a buffer of 4x4 pixels. *)
Lemma landscape_witness :
  drawW wide_image 4 = 4 /\ dx wide_image 4 = 0 /\ 0 <= dy wide_image 4.
Proof.
  destruct (landscape_image_leaves_two_bars wide_image 4)
    as (_ & HW & HX & _ & HY & _); [simpl; lia ..|].
  split; [exact HW|]. split; [exact HX | exact HY].
Defined.

(** A point outside the working buffer of the wide image. *)
Lemma sample_nearest_witness :
  sample reference_platform 4
    (getImageData (prepare reference_platform wide_image 4) 4)
    false 1.15 (-5) 7.5
  = sample reference_platform 4
      (getImageData (prepare reference_platform wide_image 4) 4)
      false 1.15 (IZR (floor_then_clamp 4 (-5))) (IZR (floor_then_clamp 4 7.5)).
Proof.
  refine (proj1 (sample_reads_nearest_pixel reference_platform 4
                   (getImageData (prepare reference_platform wide_image 4) 4)
                   false 1.15 (-5) 7.5 _)).
  lia.
Defined.

(** A one-pixel buffer, sampled both ways. *)
Lemma inverted_sample_witness :
  exists lum,
    sample reference_platform 1 [10; 20; 30; 255]%Z false 1 0 0 = Some lum /\
    sample reference_platform 1 [10; 20; 30; 255]%Z true 1 0 0 = Some (1 - lum) /\
    0 <= lum <= 1.
Proof.
  apply (inverted_sample_is_complement reference_platform 1
           [10; 20; 30; 255]%Z 0 0).
  - exact reference_pow_one.
  - lia.
  - reflexivity.
  - repeat constructor; lia.
Defined.

(** The black image loaded, with a stroke too wide for the clip. *)
Lemma throwing_render_witness :
  App.busy
    (fst (App.render_and_encode unit object_url encode reference_platform
            (loaded wide_stroke) fresh_page)) = true /\
  App.error
    (fst (App.render_and_encode unit object_url encode reference_platform
            (loaded wide_stroke) fresh_page)) = ""%string.
Proof.
  assert (Hres : (0 <= resolution (App.params (loaded wide_stroke)))%Z)
    by (cbn; lia).
  assert (Hwide : IZR (resolution (App.params (loaded wide_stroke))) / 2
                  < maxWidth (App.params (loaded wide_stroke)))
    by (cbn; lra).
  pose proof (throwing_render_stays_busy unit object_url encode
                reference_platform (loaded wide_stroke) black_image fresh_page
                eq_refl Hres (or_intror (conj eq_refl Hwide))) as H.
  cbv zeta in H. destruct H as (_ & Hb & _ & He & _).
  split; [exact Hb | exact He].
Defined.

(** The black image loaded, with the default controls. *)
Lemma completed_render_witness :
  App.busy
    (fst (App.render_and_encode unit object_url encode reference_platform
            (loaded default_params) fresh_page)) = false /\
  App.downloadURL
    (fst (App.render_and_encode unit object_url encode reference_platform
            (loaded default_params) fresh_page)) = "blob:png"%string.
Proof.
  pose proof (completed_render_publishes_link_or_error unit object_url encode
                reference_platform (loaded default_params) black_image
                fresh_page eq_refl default_params_drawable) as H.
  cbv zeta in H. destruct H as (_ & Hb & _ & _ & Hu & _).
  split; [exact Hb | exact (proj1 Hu)].
Defined.

(** A reset after the render that threw. *)
Lemma reset_recovers_witness :
  App.busy
    (fst (App.render_and_encode unit object_url encode reference_platform
            (App.reset (loaded wide_stroke)) fresh_page)) = false.
Proof.
  pose proof (reset_recovers_a_drawable_configuration unit object_url encode
                reference_platform (loaded wide_stroke) black_image fresh_page
                eq_refl) as H.
  cbv zeta in H. exact (proj2 (proj2 (proj2 (proj2 (proj2 (proj2 (proj2 (proj2 (proj2 H))))))))).
Defined.
